(** * VSyncPredictor: a shallow embedding of
      services/surfaceflinger/Scheduler/VSyncPredictor.cpp

    The predictor keeps a ring of recent hardware vsync timestamps, fits a
    line through them and answers "when is the next vsync after t".

    Modelling conventions.
    - [nsecs_t] is [int64_t], a [Z] with its wrap-around written out.  Signed
      overflow is undefined in C++; the embedding gives it the
      two's-complement result the compiled code computes ([Int64.add],
      [Int64.sub], [Int64.mul], ...).  This is how the predictions (lines
      224-333) and the regression (lines 156-207) are written, where
      timestamps are multiplied and a time point near the end of the range
      reaches the fatal branch.  Signed [/] and [%] truncate toward zero:
      [Z.quot], [Z.rem]; a division by zero is undefined, and [Z.quot]'s 0
      stands for its result.
    - The differences and percentages of [validate] (lines 80-90) are written
      in [Z]; no intermediate value leaves the 64-bit range for an ideal period
      of at most 2^56 ns and timestamps within 2^56 ns of each other
      ([validate_stays_in_int64_range]).
    - Where the code mixes [nsecs_t] with [size_t] (a comparison against
      [kOutlierTolerancePercent], [meanTS /= numSamples]) the signed operand is
      converted to the unsigned type first; that conversion is defined
      behaviour and is written out ([to_size_t], [of_size_t], LP64).
      With a positive ideal period the tests decide what their signed
      reading says ([residualRejects_band], [duplicateRejects_distance]).
    - [std::vector] is a [list]; element update is stdpp's [<[i:=x]>].
    - The rate map is kept as an association list in insertion order.  Which
      entry [mRateMap.begin()] designates depends on the container declared in
      VSyncPredictor.h; it is a parameter ([begin_key]) of [setPeriod], and
      [RateMap.oldest_key] is the choice the specification describes.
    - [RefreshRateSelector::getFrameRateDivisor] and the single-precision
      rounding of [getVsyncSequenceLocked] are parameters as well.
    - Tracing ([traceInt64], ATRACE_*, ALOGV) has no effect on state or
      results and is left out.  [LOG_ALWAYS_FATAL_IF] aborts the process: the
      functions that can reach it return [option], [None] being the abort. *)

From Stdlib Require Import ZArith Lia List Bool.
From stdpp Require Import base option list.

Local Open Scope Z_scope.

(** ** Numeric types *)

(** [nsecs_t] is [int64_t]; an abbreviation, so that [lia] and the list
    lemmas see [Z]. *)
Abbreviation nsecs_t := Z (only parsing).

Definition kMaxPercent : Z := 100.

Definition int64_min : Z := - 2 ^ 63.
Definition int64_max : Z := 2 ^ 63 - 1.
Definition in_int64 (z : Z) : Prop := int64_min <= z <= int64_max.

(** Arithmetic on [int64_t]: the exact result, reduced to the 64-bit
    two's-complement range. *)
Module Int64.

Definition wrap (z : Z) : Z := (z + 2 ^ 63) mod 2 ^ 64 - 2 ^ 63.

Definition add (a b : Z) : Z := wrap (a + b).
Definition sub (a b : Z) : Z := wrap (a - b).
Definition mul (a b : Z) : Z := wrap (a * b).

(** [a / b]; only [INT64_MIN / -1] leaves the range. *)
Definition quot (a b : Z) : Z := wrap (Z.quot a b).

(** [std::abs]. *)
Definition abs (a : Z) : Z := wrap (Z.abs a).

(** A loop of [acc += x] from 0. *)
Definition sum (l : list Z) : Z := fold_left add l 0.

(** Two integers denote the same [int64_t]. *)
Definition eqm (a b : Z) : Prop := wrap a = wrap b.

End Int64.

(** Conversion of an [int64_t] to [size_t] (64 bits, unsigned): negative
    values wrap around. *)
Definition to_size_t (v : Z) : Z := if v <? 0 then v + 2 ^ 64 else v.

(** Conversion of a [size_t] back to [int64_t]. *)
Definition of_size_t (u : Z) : Z := if 2 ^ 63 <=? u then u - 2 ^ 64 else u.

(** Conversion to [int] (32 bits, signed). *)
Definition to_int (v : Z) : Z := (v + 2 ^ 31) mod 2 ^ 32 - 2 ^ 31.

(** [a /= n] with [a : nsecs_t] and [n : size_t]: the division is unsigned. *)
Definition div_size_t (a : nsecs_t) (n : nat) : nsecs_t :=
  of_size_t (to_size_t a / Z.of_nat n).

(** ** <algorithm> *)

(** [std::min_element(first, last, comp)] on the non-empty range [x :: xs]:
    the first element such that no other compares less than it. *)
Definition min_element_by {A : Type} (comp : A -> A -> bool) (x : A) (xs : list A) : A :=
  fold_left (fun smallest it => if comp it smallest then it else smallest) xs x.

(** [std::max_element(first, last)] on the non-empty range [x :: xs]. *)
Definition max_element_by {A : Type} (comp : A -> A -> bool) (x : A) (xs : list A) : A :=
  fold_left (fun largest it => if comp largest it then it else largest) xs x.

(** The callers dereference the result, which is undefined on an empty range;
    every call site is guarded by a non-emptiness test, and 0 stands for the
    value that is never read. *)
Definition min_element (l : list nsecs_t) : nsecs_t :=
  match l with
  | [] => 0
  | x :: xs => min_element_by Z.ltb x xs
  end.

Definition max_element (l : list nsecs_t) : nsecs_t :=
  match l with
  | [] => 0
  | x :: xs => max_element_by Z.ltb x xs
  end.

Definition sum (l : list Z) : Z := fold_left Z.add l 0.

(** ** The model and the rate map *)

Record Model := { slope : nsecs_t; intercept : nsecs_t }.

Record VsyncSequence := { vsyncTime : nsecs_t; seq : Z }.

Module RateMap.

(** Entries in insertion order, oldest first; keys are unique in every map
    built by the operations below ([RateMapFacts.NoDup_store] and friends). *)
Definition t := list (nsecs_t * Model).

Definition keys (m : t) : list nsecs_t := map fst m.

Definition size (m : t) : nat := length m.

(** [m.find(k)]: [None] is [m.end()]. *)
Fixpoint find (k : nsecs_t) (m : t) : option Model :=
  match m with
  | [] => None
  | (k', v) :: m' => if k' =? k then Some v else find k m'
  end.

(** [it->second = v] for [it = m.find(k)]; the code only does this for a
    key that is present. *)
Fixpoint assign (k : nsecs_t) (v : Model) (m : t) : t :=
  match m with
  | [] => []
  | (k', v') :: m' => if k' =? k then (k', v) :: m' else (k', v') :: assign k v m'
  end.

(** [m[k] = v]: overwrite in place, or insert a new (youngest) entry. *)
Definition store (k : nsecs_t) (v : Model) (m : t) : t :=
  match find k m with
  | Some _ => assign k v m
  | None => m ++ [(k, v)]
  end.

(** [m[k]] as an rvalue: a missing key is inserted with a
    value-initialised model. *)
Definition index (k : nsecs_t) (m : t) : Model * t :=
  match find k m with
  | Some v => (v, m)
  | None => ({| slope := 0; intercept := 0 |}, m ++ [(k, {| slope := 0; intercept := 0 |})])
  end.

(** [m.erase(it)] for the iterator that points at key [k]. *)
Fixpoint erase (k : nsecs_t) (m : t) : t :=
  match m with
  | [] => []
  | (k', v) :: m' => if k' =? k then m' else (k', v) :: erase k m'
  end.

(** Modelled from the spec: the container type of [mRateMap], and with it
    the entry [mRateMap.begin()] designates, is declared in VSyncPredictor.h,
    which is not among the sources.  Section 3 of the specification has the
    eviction remove the insertion-oldest entry: [begin()] is the entry that
    was inserted first. *)
Definition oldest_key (m : t) : option nsecs_t := head (keys m).

End RateMap.

(** ** The regression of [addVsyncTimestamp] *)

Definition kScalingFactor : Z := 1000.

(** First loop: timestamps relative to the oldest one. *)
Definition fit_vsyncTS (timestamps : list nsecs_t) : list nsecs_t :=
  let oldestTS := min_element timestamps in
  map (fun t => Int64.sub t oldestTS) timestamps.

(** First loop: the ordinal a relative timestamp snaps to, scaled. *)
Definition fit_ordinal (currentPeriod : nsecs_t) (v : nsecs_t) : nsecs_t :=
  if currentPeriod =? 0 then 0
  else Int64.mul
         (Int64.quot (Int64.add v (Int64.quot currentPeriod 2)) currentPeriod)
         kScalingFactor.

Record Regression := {
  meanTS : nsecs_t;
  meanOrdinal : nsecs_t;
  top : nsecs_t;
  bottom : nsecs_t
}.

Definition regression (timestamps : list nsecs_t) (currentPeriod : nsecs_t) : Regression :=
  let numSamples := length timestamps in
  let vsyncTS := fit_vsyncTS timestamps in
  let ordinals := map (fit_ordinal currentPeriod) vsyncTS in
  let meanTS := div_size_t (Int64.sum vsyncTS) numSamples in
  let meanOrdinal := div_size_t (Int64.sum ordinals) numSamples in
  let vsyncTS := map (fun v => Int64.sub v meanTS) vsyncTS in
  let ordinals := map (fun o => Int64.sub o meanOrdinal) ordinals in
  {| meanTS := meanTS;
     meanOrdinal := meanOrdinal;
     top := Int64.sum (zip_with Int64.mul vsyncTS ordinals);
     bottom := Int64.sum (map (fun o => Int64.mul o o) ordinals) |}.

(** Line 204. *)
Definition fit_anticipatedPeriod (r : Regression) : nsecs_t :=
  Int64.quot (Int64.mul (top r) kScalingFactor) (bottom r).

(** Line 205. *)
Definition fit_intercept (r : Regression) : nsecs_t :=
  Int64.sub (meanTS r)
    (Int64.quot (Int64.mul (fit_anticipatedPeriod r) (meanOrdinal r)) kScalingFactor).

(** Line 207. *)
Definition fit_percent (r : Regression) (idealPeriod : nsecs_t) : Z :=
  Int64.quot
    (Int64.mul (Int64.abs (Int64.sub (fit_anticipatedPeriod r) idealPeriod)) kMaxPercent)
    idealPeriod.

(** ** The predictor *)

Definition kSizeLimit : nat := 30.

(** [*it] for an iterator returned by [find]; dereferencing [end()] is
    undefined, the zero model stands for it (the entry of the active period is
    always present, see [rate_map_invariant]). *)
Definition deref (it : option Model) : Model :=
  default {| slope := 0; intercept := 0 |} it.

Section Predictor.

(** [Fps], the frame-rate type of the scheduler. *)
Context {Fps : Type}.

(** The entry [mRateMap.begin()] points at ([None] on an empty map). *)
Variable begin_key : RateMap.t -> option nsecs_t.

(** [RefreshRateSelector::getFrameRateDivisor(Fps::fromPeriodNsecs(p), f)],
    as a function of the period [p] and the rate [f]. *)
Variable getFrameRateDivisor : nsecs_t -> Fps -> Z.

(** [static_cast<int64_t>(std::round(d / static_cast<float>(s)))], the
    single-precision quotient of [getVsyncSequenceLocked]. *)
Variable round_ratio : nsecs_t -> nsecs_t -> Z.

(** The object.  [mId] and [mTraceOn] only feed the tracing and are left
    out; [mMutex] serialises the public operations, each of which is one
    atomic step here.  The members are declared in VSyncPredictor.h: the
    three constants are taken to be [size_t] (they are compared with
    [mTimestamps.size()]; for the tolerance a narrower unsigned type would
    make the comparisons signed, which decides the same for a positive ideal
    period), and [mLastTimestampIndex], compared with 0 at line 75, to be
    signed. *)
Record VSyncPredictor := {
  kHistorySize : nat;
  kMinimumSamplesForPrediction : nat;
  kOutlierTolerancePercent : Z;
  mIdealPeriod : nsecs_t;
  mKnownTimestamp : option nsecs_t;
  mRateMap : RateMap.t;
  mLastTimestampIndex : Z;
  mTimestamps : list nsecs_t;
  mLastVsyncSequence : option VsyncSequence;
  mRenderRate : option Fps
}.

Definition set_timestamps (st : VSyncPredictor) (ts : list nsecs_t) (idx : Z) : VSyncPredictor :=
  {| kHistorySize := kHistorySize st;
     kMinimumSamplesForPrediction := kMinimumSamplesForPrediction st;
     kOutlierTolerancePercent := kOutlierTolerancePercent st;
     mIdealPeriod := mIdealPeriod st;
     mKnownTimestamp := mKnownTimestamp st;
     mRateMap := mRateMap st;
     mLastTimestampIndex := idx;
     mTimestamps := ts;
     mLastVsyncSequence := mLastVsyncSequence st;
     mRenderRate := mRenderRate st |}.

Definition set_knownTimestamp (st : VSyncPredictor) (k : option nsecs_t) : VSyncPredictor :=
  {| kHistorySize := kHistorySize st;
     kMinimumSamplesForPrediction := kMinimumSamplesForPrediction st;
     kOutlierTolerancePercent := kOutlierTolerancePercent st;
     mIdealPeriod := mIdealPeriod st;
     mKnownTimestamp := k;
     mRateMap := mRateMap st;
     mLastTimestampIndex := mLastTimestampIndex st;
     mTimestamps := mTimestamps st;
     mLastVsyncSequence := mLastVsyncSequence st;
     mRenderRate := mRenderRate st |}.

Definition set_rateMap (st : VSyncPredictor) (m : RateMap.t) : VSyncPredictor :=
  {| kHistorySize := kHistorySize st;
     kMinimumSamplesForPrediction := kMinimumSamplesForPrediction st;
     kOutlierTolerancePercent := kOutlierTolerancePercent st;
     mIdealPeriod := mIdealPeriod st;
     mKnownTimestamp := mKnownTimestamp st;
     mRateMap := m;
     mLastTimestampIndex := mLastTimestampIndex st;
     mTimestamps := mTimestamps st;
     mLastVsyncSequence := mLastVsyncSequence st;
     mRenderRate := mRenderRate st |}.

Definition set_idealPeriod (st : VSyncPredictor) (p : nsecs_t) : VSyncPredictor :=
  {| kHistorySize := kHistorySize st;
     kMinimumSamplesForPrediction := kMinimumSamplesForPrediction st;
     kOutlierTolerancePercent := kOutlierTolerancePercent st;
     mIdealPeriod := p;
     mKnownTimestamp := mKnownTimestamp st;
     mRateMap := mRateMap st;
     mLastTimestampIndex := mLastTimestampIndex st;
     mTimestamps := mTimestamps st;
     mLastVsyncSequence := mLastVsyncSequence st;
     mRenderRate := mRenderRate st |}.

Definition set_lastVsyncSequence (st : VSyncPredictor) (s : option VsyncSequence)
    : VSyncPredictor :=
  {| kHistorySize := kHistorySize st;
     kMinimumSamplesForPrediction := kMinimumSamplesForPrediction st;
     kOutlierTolerancePercent := kOutlierTolerancePercent st;
     mIdealPeriod := mIdealPeriod st;
     mKnownTimestamp := mKnownTimestamp st;
     mRateMap := mRateMap st;
     mLastTimestampIndex := mLastTimestampIndex st;
     mTimestamps := mTimestamps st;
     mLastVsyncSequence := s;
     mRenderRate := mRenderRate st |}.

Definition set_renderRate (st : VSyncPredictor) (r : option Fps) : VSyncPredictor :=
  {| kHistorySize := kHistorySize st;
     kMinimumSamplesForPrediction := kMinimumSamplesForPrediction st;
     kOutlierTolerancePercent := kOutlierTolerancePercent st;
     mIdealPeriod := mIdealPeriod st;
     mKnownTimestamp := mKnownTimestamp st;
     mRateMap := mRateMap st;
     mLastTimestampIndex := mLastTimestampIndex st;
     mTimestamps := mTimestamps st;
     mLastVsyncSequence := mLastVsyncSequence st;
     mRenderRate := r |}.

(** [next(i)]: the slot after [i] in the ring. *)
Definition next (st : VSyncPredictor) (i : Z) : Z :=
  (i + 1) mod Z.of_nat (length (mTimestamps st)).

(** *** validate *)

(** [mTimestamps[mLastTimestampIndex]], the last sample written. *)
Definition aValidTimestamp (st : VSyncPredictor) : nsecs_t :=
  default 0 (mTimestamps st !! Z.to_nat (mLastTimestampIndex st)).

(** Line 80: where in the ideal period the timestamp falls, in percent. *)
Definition residualPercent (st : VSyncPredictor) (timestamp : nsecs_t) : Z :=
  Z.quot (Z.rem (timestamp - aValidTimestamp st) (mIdealPeriod st) * kMaxPercent)
         (mIdealPeriod st).

(** Lines 81-82: the condition of the first [return false]. *)
Definition residualRejects (st : VSyncPredictor) (timestamp : nsecs_t) : bool :=
  let percent := to_size_t (residualPercent st timestamp) in
  (kOutlierTolerancePercent st <=? percent) &&
  (percent <=? to_size_t (kMaxPercent - kOutlierTolerancePercent st)).

(** Lines 86-89: the buffered timestamp closest to [timestamp]. *)
Definition nearestTimestamp (st : VSyncPredictor) (timestamp : nsecs_t) : nsecs_t :=
  match mTimestamps st with
  | [] => 0
  | x :: xs =>
      min_element_by (fun a b => Z.abs (timestamp - a) <? Z.abs (timestamp - b)) x xs
  end.

(** Line 90. *)
Definition distancePercent (st : VSyncPredictor) (timestamp : nsecs_t) : Z :=
  Z.quot (Z.abs (nearestTimestamp st timestamp - timestamp) * kMaxPercent)
         (mIdealPeriod st).

(** Line 91: the condition of the second [return false]. *)
Definition duplicateRejects (st : VSyncPredictor) (timestamp : nsecs_t) : bool :=
  to_size_t (distancePercent st timestamp) <? kOutlierTolerancePercent st.

Definition validate (st : VSyncPredictor) (timestamp : nsecs_t) : bool :=
  if (mLastTimestampIndex st <? 0) || bool_decide (mTimestamps st = []) then true
  else if residualRejects st timestamp then false
  else if duplicateRejects st timestamp then false
  else true.

(** *** Model access *)

Definition getVSyncPredictionModelLocked (st : VSyncPredictor) : Model :=
  deref (RateMap.find (mIdealPeriod st) (mRateMap st)).

Definition getVSyncPredictionModel (st : VSyncPredictor) : Model :=
  let model := getVSyncPredictionModelLocked st in
  {| slope := slope model; intercept := intercept model |}.

Definition currentPeriod (st : VSyncPredictor) : nsecs_t :=
  slope (deref (RateMap.find (mIdealPeriod st) (mRateMap st))).

Definition needsMoreSamples (st : VSyncPredictor) : bool :=
  (length (mTimestamps st) <? kMinimumSamplesForPrediction st)%nat.

(** *** clearTimestamps, resetModel, setPeriod *)

Definition clearTimestamps (st : VSyncPredictor) : VSyncPredictor :=
  match mTimestamps st with
  | [] => st
  | _ :: _ =>
      let maxRb := max_element (mTimestamps st) in
      let st := match mKnownTimestamp st with
                | Some known => set_knownTimestamp st (Some (Z.max known maxRb))
                | None => set_knownTimestamp st (Some maxRb)
                end in
      set_timestamps st [] 0
  end.

Definition resetModel (st : VSyncPredictor) : VSyncPredictor :=
  let st := set_rateMap st
              (RateMap.store (mIdealPeriod st)
                 {| slope := mIdealPeriod st; intercept := 0 |} (mRateMap st)) in
  clearTimestamps st.

Definition setPeriod (st : VSyncPredictor) (period : nsecs_t) : VSyncPredictor :=
  let st := if (RateMap.size (mRateMap st) =? kSizeLimit)%nat
            then match begin_key (mRateMap st) with
                 | Some k => set_rateMap st (RateMap.erase k (mRateMap st))
                 | None => st
                 end
            else st in
  let st := set_idealPeriod st period in
  let st := match RateMap.find period (mRateMap st) with
            | None => set_rateMap st
                        (RateMap.store (mIdealPeriod st)
                           {| slope := period; intercept := 0 |} (mRateMap st))
            | Some _ => st
            end in
  clearTimestamps st.

(** The constructor.  The members start out empty (default-constructed
    containers and optionals, index 0) and [resetModel] runs once. *)
Definition construct (idealPeriod : nsecs_t) (historySize minimumSamplesForPrediction : nat)
    (outlierTolerancePercent : Z) : VSyncPredictor :=
  resetModel
    {| kHistorySize := historySize;
       kMinimumSamplesForPrediction := minimumSamplesForPrediction;
       kOutlierTolerancePercent := Z.min outlierTolerancePercent kMaxPercent;
       mIdealPeriod := idealPeriod;
       mKnownTimestamp := None;
       mRateMap := [];
       mLastTimestampIndex := 0;
       mTimestamps := [];
       mLastVsyncSequence := None;
       mRenderRate := None |}.

(** *** addVsyncTimestamp *)

(** Lines 125-131: the ring insertion of a validated sample. *)
Definition insertTimestamp (st : VSyncPredictor) (timestamp : nsecs_t) : VSyncPredictor :=
  if negb (length (mTimestamps st) =? kHistorySize st)%nat then
    let st := set_timestamps st (mTimestamps st ++ [timestamp]) (mLastTimestampIndex st) in
    set_timestamps st (mTimestamps st) (next st (mLastTimestampIndex st))
  else
    let i := next st (mLastTimestampIndex st) in
    set_timestamps st (<[Z.to_nat i := timestamp]> (mTimestamps st)) i.

(** [it->second = model] for [it = mRateMap.find(mIdealPeriod)]. *)
Definition commitModel (st : VSyncPredictor) (model : Model) : VSyncPredictor :=
  set_rateMap st (RateMap.assign (mIdealPeriod st) model (mRateMap st)).

Definition addVsyncTimestamp (st : VSyncPredictor) (timestamp : nsecs_t)
    : bool * VSyncPredictor :=
  if negb (validate st timestamp) then
    if (length (mTimestamps st) <? kMinimumSamplesForPrediction st)%nat then
      let st := set_timestamps st (mTimestamps st ++ [timestamp]) (mLastTimestampIndex st) in
      (false, clearTimestamps st)
    else if negb (bool_decide (mTimestamps st = [])) then
      (false,
       set_knownTimestamp st (Some (Z.max timestamp (max_element (mTimestamps st)))))
    else
      (false, set_knownTimestamp st (Some timestamp))
  else
    let st := insertTimestamp st timestamp in
    let numSamples := length (mTimestamps st) in
    if (numSamples <? kMinimumSamplesForPrediction st)%nat then
      (true,
       set_rateMap st
         (RateMap.store (mIdealPeriod st)
            {| slope := mIdealPeriod st; intercept := 0 |} (mRateMap st)))
    else
      let currentPeriod := slope (deref (RateMap.find (mIdealPeriod st) (mRateMap st))) in
      let r := regression (mTimestamps st) currentPeriod in
      if bottom r =? 0 then
        (false,
         clearTimestamps (commitModel st {| slope := mIdealPeriod st; intercept := 0 |}))
      else
        let anticipatedPeriod := fit_anticipatedPeriod r in
        let intercept := fit_intercept r in
        let percent := fit_percent r (mIdealPeriod st) in
        if kOutlierTolerancePercent st <=? to_size_t percent then
          (false,
           clearTimestamps (commitModel st {| slope := mIdealPeriod st; intercept := 0 |}))
        else
          (true, commitModel st {| slope := anticipatedPeriod; intercept := intercept |}).

(** *** Predictions *)

(** The result is [None] when [LOG_ALWAYS_FATAL_IF(prediction < timePoint)]
    fires. *)
Definition nextAnticipatedVSyncTimeFromLocked (st : VSyncPredictor) (timePoint : nsecs_t)
    : option nsecs_t :=
  let model := getVSyncPredictionModelLocked st in
  let slope := slope model in
  let intercept := intercept model in
  match mTimestamps st with
  | [] =>
      let knownTimestamp := default timePoint (mKnownTimestamp st) in
      let numPeriodsOut :=
        Int64.add (Int64.quot (Int64.sub timePoint knownTimestamp) (mIdealPeriod st)) 1 in
      Some (Int64.add knownTimestamp (Int64.mul numPeriodsOut (mIdealPeriod st)))
  | _ :: _ =>
      let oldest := min_element (mTimestamps st) in
      let zeroPoint := Int64.add oldest intercept in
      let ordinalRequest :=
        Int64.quot (Int64.add (Int64.sub timePoint zeroPoint) slope) slope in
      let prediction :=
        Int64.add (Int64.add (Int64.mul ordinalRequest slope) intercept) oldest in
      if prediction <? timePoint then None else Some prediction
  end.

Definition getVsyncSequenceLocked (st : VSyncPredictor) (timestamp : nsecs_t)
    : option VsyncSequence :=
  match nextAnticipatedVSyncTimeFromLocked st timestamp with
  | None => None
  | Some vsync =>
      match mLastVsyncSequence st with
      | None => Some {| vsyncTime := vsync; seq := 0 |}
      | Some last =>
          let slope := slope (getVSyncPredictionModelLocked st) in
          let vsyncSequence :=
            Int64.add (seq last) (round_ratio (Int64.sub vsync (vsyncTime last)) slope) in
          Some {| vsyncTime := vsync; seq := vsyncSequence |}
      end
  end.

(** The lambda of lines 277-289, which returns an [int]; so is [mod]. *)
Definition renderRatePhase (st : VSyncPredictor) (last : VsyncSequence) : Z :=
  match mRenderRate st with
  | None => 0
  | Some renderRate =>
      let divisor := getFrameRateDivisor (mIdealPeriod st) renderRate in
      if divisor <=? 1 then 0
      else
        let mod_ := to_int (Z.rem (seq last) divisor) in
        if mod_ =? 0 then 0 else to_int (divisor - mod_)
  end.

Definition nextAnticipatedVSyncTimeFrom (st : VSyncPredictor) (timePoint : nsecs_t)
    : option (nsecs_t * VSyncPredictor) :=
  match getVsyncSequenceLocked st timePoint with
  | None => None
  | Some last =>
      let st := set_lastVsyncSequence st (Some last) in
      let phase := renderRatePhase st last in
      if phase =? 0 then Some (vsyncTime last, st)
      else
        let model := getVSyncPredictionModelLocked st in
        let approximateNextVsync :=
          Int64.add (vsyncTime last) (Int64.mul (slope model) phase) in
        match nextAnticipatedVSyncTimeFromLocked st
                (Int64.sub approximateNextVsync (Int64.quot (slope model) 2)) with
        | None => None
        | Some vsync => Some (vsync, st)
        end
  end.

(** [divisor] is the [unsigned] the caller converted to. *)
Definition isVSyncInPhaseLocked (st : VSyncPredictor) (timePoint : nsecs_t) (divisor : Z)
    : option (bool * VSyncPredictor) :=
  if (divisor <=? 1) || (timePoint =? 0) then Some (true, st)
  else
    let '(model, m) := RateMap.index (mIdealPeriod st) (mRateMap st) in
    let st := set_rateMap st m in
    let period := slope model in
    let justBeforeTimePoint := Int64.sub timePoint (Int64.quot period 2) in
    match getVsyncSequenceLocked st justBeforeTimePoint with
    | None => None
    | Some vsyncSequence => Some (Z.rem (seq vsyncSequence) divisor =? 0, st)
    end.

Definition isVSyncInPhase (st : VSyncPredictor) (timePoint : nsecs_t) (frameRate : Fps)
    : option (bool * VSyncPredictor) :=
  let divisor := getFrameRateDivisor (mIdealPeriod st) frameRate in
  isVSyncInPhaseLocked st timePoint (divisor mod 2 ^ 32).

Definition setRenderRate (st : VSyncPredictor) (fps : Fps) : VSyncPredictor :=
  set_renderRate st (Some fps).

(** [dump] formats [mIdealPeriod] and the entries of the rate map; the
    entries, without the formatting. *)
Definition dump (st : VSyncPredictor) : nsecs_t * list (nsecs_t * Model) :=
  (mIdealPeriod st, mRateMap st).

(** *** The public interface as a transition system *)

Inductive Call :=
| CallAddVsyncTimestamp (timestamp : nsecs_t)
| CallSetPeriod (period : nsecs_t)
| CallResetModel
| CallSetRenderRate (fps : Fps)
| CallCurrentPeriod
| CallNextAnticipatedVSyncTimeFrom (timePoint : nsecs_t)
| CallIsVSyncInPhase (timePoint : nsecs_t) (frameRate : Fps)
| CallGetVSyncPredictionModel
| CallNeedsMoreSamples
| CallDump.

(** The state a call leaves behind ([None]: the process was aborted). *)
Definition exec (c : Call) (st : VSyncPredictor) : option VSyncPredictor :=
  match c with
  | CallAddVsyncTimestamp timestamp => Some (snd (addVsyncTimestamp st timestamp))
  | CallSetPeriod period => Some (setPeriod st period)
  | CallResetModel => Some (resetModel st)
  | CallSetRenderRate fps => Some (setRenderRate st fps)
  | CallCurrentPeriod => Some st
  | CallNextAnticipatedVSyncTimeFrom timePoint =>
      snd <$> nextAnticipatedVSyncTimeFrom st timePoint
  | CallIsVSyncInPhase timePoint frameRate => snd <$> isVSyncInPhase st timePoint frameRate
  | CallGetVSyncPredictionModel => Some st
  | CallNeedsMoreSamples => Some st
  | CallDump => Some st
  end.

(** A sequence of calls, in order, until one aborts. *)
Fixpoint run (calls : list Call) (st : VSyncPredictor) : option VSyncPredictor :=
  match calls with
  | [] => Some st
  | c :: calls =>
      match exec c st with
      | Some st => run calls st
      | None => None
      end
  end.

(** *** Predicates used by the statements *)

(** The rate map has at most 30 entries and one of them belongs to the
    active ideal period. *)
Definition rate_map_invariant (st : VSyncPredictor) : Prop :=
  (RateMap.size (mRateMap st) <= kSizeLimit)%nat /\
  is_Some (RateMap.find (mIdealPeriod st) (mRateMap st)).

(** A sample has been written and [mLastTimestampIndex] designates it. *)
Definition has_sample (st : VSyncPredictor) : Prop :=
  mTimestamps st <> [] /\
  0 <= mLastTimestampIndex st < Z.of_nat (length (mTimestamps st)).

(** The warm path of the predictor: samples are buffered and the model of
    the active period has a positive slope. *)
Definition warm (st : VSyncPredictor) : Prop :=
  mTimestamps st <> [] /\ 0 < slope (getVSyncPredictionModelLocked st).

(** What the constructor guarantees about the tolerance ([uint32_t] capped
    at [kMaxPercent]). *)
Definition tolerance_ok (st : VSyncPredictor) : Prop :=
  0 <= kOutlierTolerancePercent st <= kMaxPercent.

(** The ring: at most [kHistorySize] samples, [mLastTimestampIndex] inside
    the buffer, and at its end as long as the ring has not wrapped. *)
Definition ring_ok (st : VSyncPredictor) : Prop :=
  (0 < kHistorySize st)%nat /\
  (length (mTimestamps st) <= kHistorySize st)%nat /\
  (mTimestamps st <> [] ->
   0 <= mLastTimestampIndex st < Z.of_nat (length (mTimestamps st))) /\
  (mTimestamps st <> [] ->
   (length (mTimestamps st) < kHistorySize st)%nat ->
   mLastTimestampIndex st = Z.of_nat (length (mTimestamps st)) - 1).

(** The members that are [const]. *)
Definition constants (st : VSyncPredictor) : nat * nat * Z :=
  (kHistorySize st, kMinimumSamplesForPrediction st, kOutlierTolerancePercent st).

End Predictor.

Arguments VSyncPredictor Fps : clear implicits.
Arguments Call Fps : clear implicits.

(** [mRateMap.begin()] must designate an entry of a non-empty map. *)
Definition begin_key_lawful (begin_key : RateMap.t -> option nsecs_t) : Prop :=
  forall m, m <> [] -> exists k, begin_key m = Some k /\ In k (RateMap.keys m).

(** ** Statements in the words of the specification *)

(** [m] is the largest element of [l]. *)
Definition is_maximum (m : Z) (l : list Z) : Prop :=
  In m l /\ Forall (fun x => x <= m) l.

(** [m] is the smallest element of [l]. *)
Definition is_minimum (m : Z) (l : list Z) : Prop :=
  In m l /\ Forall (fun x => m <= x) l.

Section Ordinals.

Context {Fps : Type}.
Implicit Types (st : VSyncPredictor Fps) (timePoint ordinal : Z).

(** Section 4.4: [zero = oldest + intercept]. *)
Definition zeroPoint st : nsecs_t :=
  min_element (mTimestamps st) + intercept (getVSyncPredictionModelLocked st).

(** The vsync the model places at [ordinal]. *)
Definition vsyncAt st ordinal : nsecs_t :=
  zeroPoint st + ordinal * slope (getVSyncPredictionModelLocked st).

(** "the smallest ordinal such that [zero + ordinal * slope >= timePoint]". *)
Definition smallest_ordinal_not_before st timePoint ordinal : Prop :=
  timePoint <= vsyncAt st ordinal /\
  forall k, timePoint <= vsyncAt st k -> ordinal <= k.

(** The smallest ordinal whose vsync is strictly later than [timePoint]. *)
Definition smallest_ordinal_after st timePoint ordinal : Prop :=
  timePoint < vsyncAt st ordinal /\
  forall k, timePoint < vsyncAt st k -> ordinal <= k.

End Ordinals.


(** ** Sample configurations *)

(** Stand-ins for the two collaborators: a render rate of half the refresh
    rate, and the quotient rounded to the nearest integer. *)
Definition example_divisor (period : nsecs_t) (fps : unit) : Z := 2.

Definition example_round_ratio (d s : nsecs_t) : Z := Z.quot (2 * d + s) (2 * s).

(** The state after a run of [addVsyncTimestamp]. *)
Definition feed {Fps : Type} (st : VSyncPredictor Fps) (timestamps : list nsecs_t)
    : VSyncPredictor Fps :=
  fold_left (fun st t => snd (addVsyncTimestamp st t)) timestamps st.

(** Period 100, history 10, 3 samples to predict, tolerance 10 percent. *)
Definition example_fresh : VSyncPredictor unit := construct 100 10 3 10.

(** Three samples on the grid: the model is [{100, 0}] with oldest sample 0. *)
Definition example_converged : VSyncPredictor unit := feed example_fresh [0; 100; 200].


(** One sample suffices to predict. *)
Definition example_one_suffices : VSyncPredictor unit := construct 100 10 1 10.


(** 31 pairwise distinct periods, none of them 100. *)
Definition example_periods : list nsecs_t := map Z.of_nat (List.seq 1 31).

(** Closed goals about the sample states are decided by evaluation. *)
Ltac by_evaluation :=
  vm_compute;
  repeat match goal with
         | |- _ /\ _ => split
         end;
  first [reflexivity | discriminate | lia | exact I].

(** ** Further notions for the properties of the code *)

(** [n] samples of a display that ticks every [period] from [t0] on. *)
Definition grid (t0 period : nsecs_t) (n : nat) : list nsecs_t :=
  map (fun i => t0 + Z.of_nat i * period) (List.seq 0 n).

(** The results of a run of [addVsyncTimestamp], sample by sample. *)
Fixpoint feed_results {Fps : Type} (st : VSyncPredictor Fps) (timestamps : list nsecs_t)
    : list bool :=
  match timestamps with
  | [] => []
  | t :: timestamps =>
      fst (addVsyncTimestamp st t) :: feed_results (snd (addVsyncTimestamp st t)) timestamps
  end.

(** [example_converged] asked to render at half the refresh rate. *)
Definition example_half_rate : VSyncPredictor unit := setRenderRate example_converged tt.

(** An empty buffer with a known timestamp: [example_converged] after a
    switch to a period of 50. *)
Definition example_switched : VSyncPredictor unit :=
  setPeriod RateMap.oldest_key example_converged 50.


(** A history of three slots, all written: the next sample overwrites. *)
Definition example_full : VSyncPredictor unit := feed (construct 100 3 2 10) [0; 100; 200].

(** A display nominally at 100 that ticks every 105: fitted model [{105, 0}]. *)
Definition example_drifting : VSyncPredictor unit := feed (construct 100 10 2 10) [0; 105].

(** ... switched away to a nominal period of 50. *)
Definition example_away : VSyncPredictor unit :=
  setPeriod RateMap.oldest_key example_drifting 50.

(** [example_half_rate] after one prediction, which caches a vsync sequence. *)
Definition example_half_rate_cached : VSyncPredictor unit :=
  match nextAnticipatedVSyncTimeFrom example_divisor example_round_ratio
          example_half_rate 250 with
  | Some (_, st) => st
  | None => example_half_rate
  end.

(** A caller's session. *)
Definition example_calls : list (Call unit) :=
  [CallAddVsyncTimestamp 0; CallAddVsyncTimestamp 105; CallNextAnticipatedVSyncTimeFrom 130;
   CallSetRenderRate tt; CallIsVSyncInPhase 210 tt; CallSetPeriod 50;
   CallAddVsyncTimestamp 300; CallSetPeriod 100; CallNeedsMoreSamples].

(** The predictor has taken in [k] samples of a display ticking every
    [period] from [t0] on, and its model says so. *)
Definition locked_on {Fps : Type} (t0 period : Z) (k : nat) (st : VSyncPredictor Fps) : Prop :=
  mIdealPeriod st = period /\
  mTimestamps st = grid t0 period k /\
  RateMap.find period (mRateMap st) = Some {| slope := period; intercept := 0 |} /\
  ring_ok st /\
  ((0 < k)%nat -> aValidTimestamp st = t0 + (Z.of_nat k - 1) * period).

(** ** 64-bit arithmetic *)

Lemma wrap_in_int64 z : in_int64 (Int64.wrap z).
Proof.
  unfold in_int64, int64_min, int64_max, Int64.wrap.
  pose proof (Z.mod_pos_bound (z + 2 ^ 63) (2 ^ 64) ltac:(lia)). lia.
Qed.

(** A value inside the range is not changed. *)
Lemma wrap_small z : in_int64 z -> Int64.wrap z = z.
Proof.
  unfold in_int64, int64_min, int64_max, Int64.wrap. intros Hz.
  rewrite Z.mod_small by lia. lia.
Qed.

Lemma wrap_0 : Int64.wrap 0 = 0.
Proof. reflexivity. Qed.

(** Values that differ by a multiple of 2^64 wrap to the same. *)
Lemma wrap_congr a b k : a = b + k * 2 ^ 64 -> Int64.wrap a = Int64.wrap b.
Proof.
  intros ->. unfold Int64.wrap.
  replace (b + k * 2 ^ 64 + 2 ^ 63) with (b + 2 ^ 63 + k * 2 ^ 64) by lia.
  rewrite Z_mod_plus_full. reflexivity.
Qed.

Lemma wrap_diff z : exists k, Int64.wrap z = z + k * 2 ^ 64.
Proof.
  exists (- ((z + 2 ^ 63) / 2 ^ 64)). unfold Int64.wrap.
  pose proof (Z.div_mod (z + 2 ^ 63) (2 ^ 64) ltac:(lia)). lia.
Qed.

Lemma eqm_diff a b : Int64.eqm a b -> exists k, a = b + k * 2 ^ 64.
Proof.
  unfold Int64.eqm. intros H.
  destruct (wrap_diff a) as [ka Ha], (wrap_diff b) as [kb Hb].
  exists (kb - ka). lia.
Qed.

(** Sums, differences and products respect the congruence, so that their
    operands may be wrapped or not. *)
Lemma eqm_same a : Int64.eqm a a.
Proof. reflexivity. Qed.

Lemma eqm_unwrap a b : Int64.eqm a b -> Int64.eqm (Int64.wrap a) b.
Proof.
  unfold Int64.eqm. intros <-. apply wrap_small, wrap_in_int64.
Qed.

Lemma eqm_add a a' b b' :
  Int64.eqm a a' -> Int64.eqm b b' -> Int64.eqm (a + b) (a' + b').
Proof.
  intros Ha Hb.
  destruct (eqm_diff _ _ Ha) as [ka ->], (eqm_diff _ _ Hb) as [kb ->].
  apply (wrap_congr _ _ (ka + kb)). ring.
Qed.

Lemma eqm_sub a a' b b' :
  Int64.eqm a a' -> Int64.eqm b b' -> Int64.eqm (a - b) (a' - b').
Proof.
  intros Ha Hb.
  destruct (eqm_diff _ _ Ha) as [ka ->], (eqm_diff _ _ Hb) as [kb ->].
  apply (wrap_congr _ _ (ka - kb)). ring.
Qed.

Lemma eqm_mul a a' b b' :
  Int64.eqm a a' -> Int64.eqm b b' -> Int64.eqm (a * b) (a' * b').
Proof.
  intros Ha Hb.
  destruct (eqm_diff _ _ Ha) as [ka ->], (eqm_diff _ _ Hb) as [kb ->].
  apply (wrap_congr _ _ (a' * kb + ka * b' + ka * kb * 2 ^ 64)). ring.
Qed.

Lemma wrap_add_l a b : Int64.wrap (Int64.wrap a + b) = Int64.wrap (a + b).
Proof. apply eqm_add; [apply eqm_unwrap|]; apply eqm_same. Qed.

Lemma wrap_mul_l a b : Int64.wrap (Int64.wrap a * b) = Int64.wrap (a * b).
Proof. apply eqm_mul; [apply eqm_unwrap|]; apply eqm_same. Qed.

(** An expression [e] that is congruent to [e'], whose value [v] is in the
    range, wraps to [v]. *)
Lemma wrap_exact e e' v : in_int64 v -> Int64.eqm e e' -> e' = v -> Int64.wrap e = v.
Proof. intros Hv He <-. rewrite He. apply wrap_small, Hv. Qed.

(** [Int64.eqm e e'] for an expression [e] of wrapped sums, differences and
    products and the same expression [e'] without the wraps. *)
Ltac eqm_unwrap_all :=
  repeat match goal with
         | |- Int64.eqm (Int64.wrap _) _ => apply eqm_unwrap
         | |- Int64.eqm (_ + _) _ => apply eqm_add
         | |- Int64.eqm (_ - _) _ => apply eqm_sub
         | |- Int64.eqm (_ * _) _ => apply eqm_mul
         | |- Int64.eqm _ _ => apply eqm_same
         end.

(** [wrap e = v] for such an expression whose exact value [v] is in the
    range; the range is left to prove. *)
Ltac int64_exact :=
  unfold Int64.add, Int64.sub, Int64.mul;
  eapply wrap_exact; [ | eqm_unwrap_all | ring ].

(** The quotient by a positive divisor stays in the range. *)
Lemma quot_in_int64 a b : in_int64 a -> 0 < b -> in_int64 (Z.quot a b).
Proof.
  unfold in_int64, int64_min, int64_max. intros Ha Hb.
  destruct (Z_lt_le_dec a 0).
  - pose proof (Z.quot_opp_l a b ltac:(lia)).
    assert (0 <= Z.quot (- a) b <= - a).
    { split; [apply Z.quot_pos; lia|]. apply Z.quot_le_upper_bound; nia. }
    lia.
  - assert (0 <= Z.quot a b <= a).
    { split; [apply Z.quot_pos; lia|]. apply Z.quot_le_upper_bound; nia. }
    lia.
Qed.

Lemma int64_quot_pos a b : in_int64 a -> 0 < b -> Int64.quot a b = Z.quot a b.
Proof. intros Ha Hb. apply wrap_small, quot_in_int64; assumption. Qed.

Lemma fold_left_add_acc l : forall a, fold_left Z.add l a = a + fold_left Z.add l 0.
Proof.
  induction l as [|x l IH]; intros a; cbn [fold_left]; [lia|].
  rewrite (IH (a + x)), (IH (0 + x)). lia.
Qed.

(** A loop of wrapping additions is the exact sum, wrapped once. *)
Lemma int64_fold_add l : forall a,
  Int64.wrap (fold_left Int64.add l a) = Int64.wrap (a + sum l).
Proof.
  unfold sum.
  induction l as [|x l IH]; intros a; cbn [fold_left].
  - f_equal. lia.
  - rewrite IH, (fold_left_add_acc l (0 + x)). unfold Int64.add.
    rewrite wrap_add_l. f_equal. lia.
Qed.

Lemma int64_sum_in_int64 l : in_int64 (Int64.sum l).
Proof.
  unfold Int64.sum. destruct l as [|x l] using rev_ind.
  - cbn. unfold in_int64, int64_min, int64_max. lia.
  - rewrite fold_left_app. cbn [fold_left]. apply wrap_in_int64.
Qed.

Lemma int64_sum_wrap l : Int64.sum l = Int64.wrap (sum l).
Proof.
  rewrite <- (wrap_small (Int64.sum l)) by apply int64_sum_in_int64.
  unfold Int64.sum. rewrite int64_fold_add. f_equal.
Qed.

(** ** Arithmetic of the conversions *)

Lemma to_size_t_nonneg v : 0 <= v -> to_size_t v = v.
Proof. unfold to_size_t. intros Hv. destruct (Z.ltb_spec v 0); lia. Qed.

Lemma to_size_t_neg v : v < 0 -> to_size_t v = v + 2 ^ 64.
Proof. unfold to_size_t. intros Hv. destruct (Z.ltb_spec v 0); lia. Qed.


Lemma of_size_t_small u : u < 2 ^ 63 -> of_size_t u = u.
Proof. unfold of_size_t. intros Hu. destruct (Z.leb_spec (2 ^ 63) u); lia. Qed.

(** On a non-negative [int64_t] the unsigned division is the ordinary one. *)
Lemma div_size_t_nonneg a n :
  0 <= a < 2 ^ 63 -> (0 < n)%nat -> div_size_t a n = a / Z.of_nat n.
Proof.
  intros Ha Hn. unfold div_size_t. rewrite to_size_t_nonneg by lia.
  apply of_size_t_small.
  assert (a / Z.of_nat n <= a); [|lia].
  apply Z.div_le_upper_bound; nia.
Qed.

Lemma to_int_small v : - 2 ^ 31 <= v < 2 ^ 31 -> to_int v = v.
Proof. unfold to_int. intros Hv. rewrite Z.mod_small by lia. lia. Qed.

(** Dividing an [int64_t] by the [size_t] 1 gives it back. *)
Lemma div_size_t_one a : in_int64 a -> div_size_t a 1 = a.
Proof.
  unfold in_int64, int64_min, int64_max, div_size_t, to_size_t, of_size_t. intros Ha.
  change (Z.of_nat 1) with 1. rewrite Z.div_1_r.
  destruct (Z.ltb_spec a 0), (Z.leb_spec (2 ^ 63) (a + 2 ^ 64)), (Z.leb_spec (2 ^ 63) a); lia.
Qed.

(** A truncated percentage [r * 100 / p] of a remainder [r = a % p] lies
    strictly between -100 and 100. *)
Lemma rem_percent_bound a p :
  - kMaxPercent < Z.quot (Z.rem a p * kMaxPercent) p < kMaxPercent.
Proof.
  unfold kMaxPercent.
  destruct (Z.eq_dec p 0) as [->|Hp].
  - assert (forall x, Z.quot x 0 = 0) as -> by (intros [| |]; reflexivity). lia.
  - pose proof (Z.rem_bound_abs a p Hp) as Hr.
    pose proof (Z.quot_rem' (Z.rem a p * 100) p) as Hq.
    pose proof (Z.rem_bound_abs (Z.rem a p * 100) p Hp) as Hr'.
    pose proof (Z.rem_sign_mul (Z.rem a p * 100) p Hp) as Hs.
    remember (Z.rem a p) as r. remember (Z.quot (r * 100) p) as q.
    remember (Z.rem (r * 100) p) as r'.
    nia.
Qed.


(** ** <algorithm>: what the folds compute *)

Lemma min_element_by_key {A : Type} (key : A -> Z) (xs : list A) (x : A) :
  In (min_element_by (fun a b => key a <? key b) x xs) (x :: xs) /\
  Forall (fun y => key (min_element_by (fun a b => key a <? key b) x xs) <= key y) (x :: xs).
Proof.
  unfold min_element_by.
  revert x. induction xs as [|y ys IH]; intros x; cbn.
  - split; [auto | repeat constructor; lia].
  - destruct (IH (if key y <? key x then y else x)) as [Hin Hall].
    apply Forall_cons_iff in Hall as [Hhd Hall].
    destruct (Z.ltb_spec (key y) (key x)) as [Hlt|Hge].
    + split; [destruct Hin as [<-|Hin]; auto |].
      repeat (apply Forall_cons_iff; split); auto; lia.
    + split; [destruct Hin as [<-|Hin]; auto |].
      repeat (apply Forall_cons_iff; split); auto; lia.
Qed.

Lemma min_element_spec x xs : is_minimum (min_element (x :: xs)) (x :: xs).
Proof. exact (min_element_by_key (fun z => z) xs x). Qed.

Lemma max_element_by_ltb (xs : list Z) (x : Z) :
  is_maximum (max_element_by Z.ltb x xs) (x :: xs).
Proof.
  unfold is_maximum, max_element_by.
  revert x. induction xs as [|y ys IH]; intros x; cbn.
  - split; [auto | repeat constructor; lia].
  - destruct (IH (if x <? y then y else x)) as [Hin Hall].
    apply Forall_cons_iff in Hall as [Hhd Hall].
    destruct (Z.ltb_spec x y) as [Hlt|Hge].
    + split; [destruct Hin as [<-|Hin]; auto |].
      repeat (apply Forall_cons_iff; split); auto; lia.
    + split; [destruct Hin as [<-|Hin]; auto |].
      repeat (apply Forall_cons_iff; split); auto; lia.
Qed.

Lemma max_element_spec x xs : is_maximum (max_element (x :: xs)) (x :: xs).
Proof. exact (max_element_by_ltb xs x). Qed.

Lemma is_maximum_unique m m' l : is_maximum m l -> is_maximum m' l -> m = m'.
Proof.
  intros [Hin Hall] [Hin' Hall'].
  rewrite List.Forall_forall in Hall, Hall'.
  specialize (Hall _ Hin'). specialize (Hall' _ Hin). lia.
Qed.

(** ** The ordinal of the warm path *)

(** [(d + s) / s] periods always lead strictly past [d]. *)
Lemma ordinal_request_after d s : 0 < s -> d < Z.quot (d + s) s * s.
Proof.
  intros Hs.
  pose proof (Z.quot_rem' (d + s) s) as Hq.
  destruct (Z_lt_le_dec (d + s) 0) as [Hneg|Hpos].
  - pose proof (Z.rem_nonpos (d + s) s ltac:(lia) ltac:(lia)). nia.
  - pose proof (Z.rem_bound_pos (d + s) s Hpos Hs). nia.
Qed.

(** From one period before the zero point on, no smaller ordinal does. *)
Lemma ordinal_request_minimal d s k :
  0 < s -> 0 <= d + s -> d < k * s -> Z.quot (d + s) s <= k.
Proof.
  intros Hs Hpos Hk.
  pose proof (Z.quot_rem' (d + s) s) as Hq.
  pose proof (Z.rem_bound_pos (d + s) s Hpos Hs). nia.
Qed.

(** Nor do they lead further than two periods past [d], and from one period
    before the zero point on, no further than one. *)
Lemma ordinal_request_upper d s :
  0 < s ->
  Z.quot (d + s) s * s < d + 2 * s /\
  (0 <= d + s -> Z.quot (d + s) s * s <= d + s).
Proof.
  intros Hs.
  pose proof (Z.quot_rem' (d + s) s) as Hq.
  destruct (Z_lt_le_dec (d + s) 0) as [Hneg|Hpos].
  - pose proof (Z.rem_nonpos (d + s) s ltac:(lia) ltac:(lia)).
    pose proof (Z.rem_bound_abs (d + s) s ltac:(lia)). split; [|intros]; nia.
  - pose proof (Z.rem_bound_pos (d + s) s Hpos Hs). split; [|intros]; nia.
Qed.

Section WarmPath.

Context {Fps : Type}.
Implicit Types (st : VSyncPredictor Fps) (timePoint : nsecs_t).

(** Lines 248-250 where nothing overflows: when the numerator of line 249
    and the vsync at the requested ordinal fit in 64 bits, that vsync is
    returned; it is strictly after the time point, so the fatal branch is
    not taken. *)
Lemma warm_prediction st timePoint :
  warm st ->
  let model := getVSyncPredictionModelLocked st in
  let ordinalRequest := Z.quot (timePoint - zeroPoint st + slope model) (slope model) in
  in_int64 (timePoint - zeroPoint st + slope model) ->
  in_int64 (vsyncAt st ordinalRequest) ->
  nextAnticipatedVSyncTimeFromLocked st timePoint = Some (vsyncAt st ordinalRequest) /\
  timePoint < vsyncAt st ordinalRequest.
Proof.
  intros [Hne Hslope]. cbn zeta. intros Hnum Hpred.
  pose proof (ordinal_request_after (timePoint - zeroPoint st) _ Hslope) as Hafter.
  unfold nextAnticipatedVSyncTimeFromLocked, vsyncAt, zeroPoint in *.
  destruct (mTimestamps st) as [|t ts] eqn:Hts; [congruence|].
  set (s := slope (getVSyncPredictionModelLocked st)) in *.
  set (i := intercept (getVSyncPredictionModelLocked st)) in *.
  set (o := min_element (t :: ts)) in *.
  assert (Hq : Int64.quot (Int64.add (Int64.sub timePoint (Int64.add o i)) s) s
               = Z.quot (timePoint - (o + i) + s) s).
  { assert (Int64.add (Int64.sub timePoint (Int64.add o i)) s = timePoint - (o + i) + s)
      as -> by (int64_exact; exact Hnum).
    apply int64_quot_pos; assumption. }
  rewrite Hq.
  set (q := Z.quot (timePoint - (o + i) + s) s) in *.
  assert (Int64.add (Int64.add (Int64.mul q s) i) o = o + i + q * s) as ->.
  { int64_exact. exact Hpred. }
  destruct (Z.ltb_spec (o + i + q * s) timePoint) as [Hlt|Hge]; [lia|].
  split; [reflexivity | lia].
Qed.


End WarmPath.

Section WarmOrdinal.

Context {Fps : Type}.
Implicit Types (st : VSyncPredictor Fps) (timePoint : nsecs_t).

(** C3, as the code has it.  On the warm path, for a time point from one
    period before [zero = oldest + intercept] on for which the numerator
    [timePoint - zero + slope] of line 249 and [timePoint + slope] do not
    exceed [INT64_MAX], the prediction is [zero + ordinal * slope] with
    [ordinal = (timePoint - zero + slope) / slope], and this is the
    smallest ordinal whose vsync is strictly later than [timePoint].  A time
    point that lies on the model's grid, [timePoint = zero + k * slope] with
    [k >= 0], is therefore answered with the following vsync,
    [timePoint + slope]. *)
Theorem warm_prediction_is_next_vsync_after st timePoint :
  warm st ->
  in_int64 timePoint ->
  zeroPoint st - slope (getVSyncPredictionModelLocked st) <= timePoint ->
  timePoint - zeroPoint st + slope (getVSyncPredictionModelLocked st) <= int64_max ->
  timePoint + slope (getVSyncPredictionModelLocked st) <= int64_max ->
  let slope := slope (getVSyncPredictionModelLocked st) in
  let ordinalRequest := Z.quot (timePoint - zeroPoint st + slope) slope in
  nextAnticipatedVSyncTimeFromLocked st timePoint = Some (vsyncAt st ordinalRequest) /\
  smallest_ordinal_after st timePoint ordinalRequest /\
  (forall k, 0 <= k -> timePoint = vsyncAt st k ->
      nextAnticipatedVSyncTimeFromLocked st timePoint = Some (timePoint + slope)).
Proof.
  intros Hwarm Htp Hfrom Hnum Hroom.
  assert (Hslope : 0 < slope (getVSyncPredictionModelLocked st)) by apply Hwarm.
  pose proof (ordinal_request_after (timePoint - zeroPoint st) _ Hslope) as Hafter.
  pose proof (ordinal_request_upper (timePoint - zeroPoint st) _ Hslope) as [_ Hupper].
  destruct (warm_prediction st timePoint Hwarm) as [Heq Hlt].
  { unfold in_int64, int64_min, int64_max in *. lia. }
  { unfold vsyncAt, in_int64, int64_min, int64_max in *. lia. }
  cbn zeta in *.
  set (s := slope (getVSyncPredictionModelLocked st)) in *.
  split; [exact Heq|]. split.
  - split; [exact Hlt|].
    intros k Hk. unfold vsyncAt in Hk. fold s in Hk.
    apply ordinal_request_minimal; lia.
  - intros k Hk Hgrid. rewrite Heq. f_equal.
    unfold vsyncAt in *. fold s in Hgrid |- *.
    replace (timePoint - zeroPoint st + s) with ((k + 1) * s) by lia.
    rewrite Z.quot_mul by lia. lia.
Qed.

End WarmOrdinal.

Section Validate.

Context {Fps : Type}.
Implicit Types (st : VSyncPredictor Fps) (timestamp : nsecs_t).

Lemma has_sample_guard st :
  has_sample st ->
  (mLastTimestampIndex st <? 0) || bool_decide (mTimestamps st = []) = false.
Proof.
  intros [Hne Hidx]. apply orb_false_iff. split.
  - apply Z.ltb_ge. lia.
  - apply bool_decide_eq_false. exact Hne.
Qed.

Lemma validate_has_sample st timestamp :
  has_sample st ->
  validate st timestamp = negb (residualRejects st timestamp || duplicateRejects st timestamp).
Proof.
  intros Hs. unfold validate. rewrite (has_sample_guard st Hs).
  destruct (residualRejects st timestamp), (duplicateRejects st timestamp); reflexivity.
Qed.

(** The unsigned comparison of lines 81-82 decides the signed band. *)
Lemma residualRejects_band st timestamp :
  tolerance_ok st ->
  residualRejects st timestamp = true <->
  kOutlierTolerancePercent st <= residualPercent st timestamp
    <= kMaxPercent - kOutlierTolerancePercent st.
Proof.
  intros [Hlo Hhi]. unfold residualRejects, residualPercent.
  pose proof (rem_percent_bound (timestamp - aValidTimestamp st) (mIdealPeriod st)) as Hb.
  set (percent := Z.quot _ _) in *. unfold kMaxPercent in *.
  rewrite andb_true_iff, !Z.leb_le.
  rewrite (to_size_t_nonneg (100 - _)) by lia.
  destruct (Z_lt_le_dec percent 0) as [Hneg|Hpos].
  - rewrite to_size_t_neg by lia. lia.
  - rewrite to_size_t_nonneg by lia. lia.
Qed.

(** The closest buffered timestamp, as [std::min_element] finds it. *)
Lemma nearestTimestamp_closest st timestamp :
  mTimestamps st <> [] ->
  In (nearestTimestamp st timestamp) (mTimestamps st) /\
  Forall (fun t => Z.abs (timestamp - nearestTimestamp st timestamp) <= Z.abs (timestamp - t))
         (mTimestamps st).
Proof.
  intros Hne. unfold nearestTimestamp.
  destruct (mTimestamps st) as [|x xs]; [congruence|].
  exact (min_element_by_key (fun a => Z.abs (timestamp - a)) xs x).
Qed.

Lemma duplicateRejects_distance st timestamp :
  0 < mIdealPeriod st ->
  duplicateRejects st timestamp = true <->
  distancePercent st timestamp < kOutlierTolerancePercent st.
Proof.
  intros Hp. unfold duplicateRejects.
  assert (0 <= distancePercent st timestamp).
  { unfold distancePercent, kMaxPercent. apply Z.quot_pos; lia. }
  rewrite to_size_t_nonneg by lia. apply Z.ltb_lt.
Qed.



End Validate.

(** ** The rate map as a container *)

Module RateMapFacts.

Import RateMap.

Lemma find_None k m : find k m = None <-> ~ In k (keys m).
Proof.
  induction m as [|[k' v] m IH]; cbn.
  - tauto.
  - destruct (Z.eqb_spec k' k); [intuition congruence | tauto].
Qed.

Lemma find_is_Some k m : is_Some (find k m) <-> In k (keys m).
Proof.
  rewrite <- not_eq_None_Some, find_None.
  destruct (in_dec Z.eq_dec k (keys m)); tauto.
Qed.

Lemma keys_assign k v m : keys (assign k v m) = keys m.
Proof.
  unfold keys. induction m as [|[k' v'] m IH]; cbn; [reflexivity|].
  destruct (k' =? k); cbn; f_equal; exact IH.
Qed.

Lemma size_assign k v m : size (assign k v m) = size m.
Proof. unfold size. rewrite <- !(length_map fst). fold (keys m). fold (keys (assign k v m)).
       now rewrite keys_assign. Qed.

Lemma find_assign k v m : is_Some (find k m) -> find k (assign k v m) = Some v.
Proof.
  induction m as [|[k' v'] m IH]; cbn.
  - intros [? ?]. discriminate.
  - destruct (Z.eqb_spec k' k) as [->|Hne]; cbn.
    + intros _. now rewrite Z.eqb_refl.
    + intros H. destruct (Z.eqb_spec k' k); [contradiction | auto].
Qed.

Lemma find_assign_ne k k' v m : k <> k' -> find k' (assign k v m) = find k' m.
Proof.
  intros Hne. induction m as [|[k0 v0] m IH]; cbn; [reflexivity|].
  destruct (Z.eqb_spec k0 k) as [->|]; cbn.
  - now destruct (Z.eqb_spec k k').
  - destruct (k0 =? k'); auto.
Qed.

Lemma find_app k m m' :
  find k (m ++ m') = match find k m with Some v => Some v | None => find k m' end.
Proof.
  induction m as [|[k0 v0] m IH]; cbn; [reflexivity|].
  destruct (k0 =? k); auto.
Qed.

Lemma find_store k v m : find k (store k v m) = Some v.
Proof.
  unfold store. destruct (find k m) eqn:Hf.
  - apply find_assign. rewrite Hf. eauto.
  - rewrite find_app, Hf. cbn. now rewrite Z.eqb_refl.
Qed.

Lemma keys_store k v m :
  keys (store k v m) = if find k m is Some _ then keys m else keys m ++ [k].
Proof.
  unfold store. destruct (find k m).
  - apply keys_assign.
  - unfold keys. now rewrite map_app.
Qed.

Lemma size_store_present k v m : is_Some (find k m) -> size (store k v m) = size m.
Proof. intros [v' Hf]. unfold store. rewrite Hf. apply size_assign. Qed.

Lemma size_store_absent k v m : find k m = None -> size (store k v m) = S (size m).
Proof. intros Hf. unfold store, size. rewrite Hf, length_app. cbn. lia. Qed.

Lemma index_present k m : is_Some (find k m) -> snd (index k m) = m.
Proof. intros [v Hf]. unfold index. now rewrite Hf. Qed.

(** Erasing an entry that is there makes the map one entry smaller. *)
Lemma size_erase k m : In k (keys m) -> S (size (erase k m)) = size m.
Proof.
  unfold size. induction m as [|[k' v] m IH]; cbn; [tauto|].
  destruct (Z.eqb_spec k' k) as [->|Hne]; [reflexivity|].
  intros [?|Hin]; [contradiction|]. cbn. now rewrite IH.
Qed.

Lemma keys_erase_head k v m : erase k ((k, v) :: m) = m.
Proof. cbn. now rewrite Z.eqb_refl. Qed.

Lemma keys_erase_incl k m x : In x (keys (erase k m)) -> In x (keys m).
Proof.
  induction m as [|[k' v] m IH]; cbn; [tauto|].
  destruct (k' =? k); cbn; tauto.
Qed.

(** The operations keep the keys unique: the list stands for a map. *)
Lemma NoDup_store k v m : List.NoDup (keys m) -> List.NoDup (keys (store k v m)).
Proof.
  intros Hnd. rewrite keys_store. destruct (find k m) eqn:Hf; [exact Hnd|].
  apply find_None in Hf.
  apply List.NoDup_app; [exact Hnd | repeat constructor; cbn; tauto |].
  intros x Hx [<-|[]]. contradiction.
Qed.

Lemma NoDup_erase k m : List.NoDup (keys m) -> List.NoDup (keys (erase k m)).
Proof.
  induction m as [|[k' v] m IH]; cbn; [auto|].
  intros Hnd. inversion Hnd as [|? ? Hnotin Hnd']; subst.
  destruct (k' =? k); [exact Hnd'|]. cbn.
  constructor; [|auto]. intros Hin. apply Hnotin. eapply keys_erase_incl; eauto.
Qed.

End RateMapFacts.

(** ** Clearing the buffer *)

Section Clear.

Context {Fps : Type}.
Implicit Types (st : VSyncPredictor Fps) (timestamp : nsecs_t).

Lemma clearTimestamps_timestamps st : mTimestamps (clearTimestamps st) = [].
Proof.
  unfold clearTimestamps. destruct (mTimestamps st) eqn:Hts; [exact Hts|].
  destruct (mKnownTimestamp st); reflexivity.
Qed.

Lemma clearTimestamps_rateMap st : mRateMap (clearTimestamps st) = mRateMap st.
Proof.
  unfold clearTimestamps. destruct (mTimestamps st); [reflexivity|].
  destruct (mKnownTimestamp st); reflexivity.
Qed.

Lemma clearTimestamps_idealPeriod st : mIdealPeriod (clearTimestamps st) = mIdealPeriod st.
Proof.
  unfold clearTimestamps. destruct (mTimestamps st); [reflexivity|].
  destruct (mKnownTimestamp st); reflexivity.
Qed.

Lemma clearTimestamps_model st :
  getVSyncPredictionModelLocked (clearTimestamps st) = getVSyncPredictionModelLocked st.
Proof.
  unfold getVSyncPredictionModelLocked.
  now rewrite clearTimestamps_rateMap, clearTimestamps_idealPeriod.
Qed.

(** The known timestamp absorbs the largest buffered one. *)
Lemma clearTimestamps_known st :
  mTimestamps st <> [] ->
  exists maxRb,
    is_maximum maxRb (mTimestamps st) /\
    mKnownTimestamp (clearTimestamps st) =
      Some (match mKnownTimestamp st with
            | Some known => Z.max known maxRb
            | None => maxRb
            end).
Proof.
  intros Hne. unfold clearTimestamps.
  destruct (mTimestamps st) as [|t ts] eqn:Hts; [congruence|].
  exists (max_element (t :: ts)). split; [apply max_element_spec|].
  destruct (mKnownTimestamp st); reflexivity.
Qed.

Lemma clearTimestamps_empty st : mTimestamps st = [] -> clearTimestamps st = st.
Proof. intros Hts. unfold clearTimestamps. now rewrite Hts. Qed.

Lemma insertTimestamp_rateMap st timestamp :
  mRateMap (insertTimestamp st timestamp) = mRateMap st /\
  mIdealPeriod (insertTimestamp st timestamp) = mIdealPeriod st /\
  kMinimumSamplesForPrediction (insertTimestamp st timestamp)
    = kMinimumSamplesForPrediction st /\
  kOutlierTolerancePercent (insertTimestamp st timestamp) = kOutlierTolerancePercent st.
Proof. unfold insertTimestamp. destruct (negb _); repeat split. Qed.


End Clear.

(** ** addVsyncTimestamp *)

Section AddVsyncTimestamp.

Context {Fps : Type}.
Implicit Types (st : VSyncPredictor Fps) (timestamp : nsecs_t).




End AddVsyncTimestamp.

(** ** setPeriod *)

Section SetPeriod.

Context {Fps : Type}.
Variable begin_key : RateMap.t -> option nsecs_t.
Implicit Types (st : VSyncPredictor Fps) (period : nsecs_t).

(** [setPeriod] touches the samples only through the final
    [clearTimestamps]. *)
Lemma setPeriod_is_clear st period :
  exists st0,
    setPeriod begin_key st period = clearTimestamps st0 /\
    mTimestamps st0 = mTimestamps st /\
    mKnownTimestamp st0 = mKnownTimestamp st.
Proof.
  unfold setPeriod.
  destruct (RateMap.size (mRateMap st) =? kSizeLimit)%nat;
    [destruct (begin_key (mRateMap st))|];
    cbn [set_idealPeriod set_rateMap mRateMap mIdealPeriod];
    match goal with
    | |- context [RateMap.find ?k ?m] => destruct (RateMap.find k m)
    end;
    eexists; (split; [reflexivity|]); split; reflexivity.
Qed.

(** C9.  [setPeriod] leaves the buffer empty; when the buffer held samples,
    the known timestamp afterwards is the larger of the previous known
    timestamp and the largest buffered sample, or that sample alone when no
    timestamp was known before. *)
Theorem setPeriod_clears_buffer_and_carries_known st period :
  mTimestamps (setPeriod begin_key st period) = [] /\
  (mTimestamps st <> [] ->
   exists maxRb,
     is_maximum maxRb (mTimestamps st) /\
     mKnownTimestamp (setPeriod begin_key st period) =
       Some (match mKnownTimestamp st with
             | Some known => Z.max known maxRb
             | None => maxRb
             end)).
Proof.
  destruct (setPeriod_is_clear st period) as (st0 & -> & Hts & Hknown).
  split; [apply clearTimestamps_timestamps|].
  intros Hne. rewrite <- Hts in Hne.
  destruct (clearTimestamps_known st0 Hne) as (maxRb & Hmax & Heq).
  exists maxRb. rewrite <- Hts, <- Hknown. auto.
Qed.

Lemma setPeriod_idealPeriod st period :
  mIdealPeriod (setPeriod begin_key st period) = period.
Proof.
  unfold setPeriod. rewrite clearTimestamps_idealPeriod.
  destruct (RateMap.size (mRateMap st) =? kSizeLimit)%nat;
    [destruct (begin_key (mRateMap st))|];
    cbn [set_idealPeriod set_rateMap mRateMap mIdealPeriod];
    match goal with
    | |- context [RateMap.find ?k ?m] => destruct (RateMap.find k m)
    end; reflexivity.
Qed.

(** The rate map after [setPeriod], in terms of the map [m] that is left
    once the eviction has run. *)
Lemma setPeriod_rateMap st period :
  let m := if (RateMap.size (mRateMap st) =? kSizeLimit)%nat
           then match begin_key (mRateMap st) with
                | Some k => RateMap.erase k (mRateMap st)
                | None => mRateMap st
                end
           else mRateMap st in
  mRateMap (setPeriod begin_key st period) =
    if RateMap.find period m is Some _ then m
    else m ++ [(period, {| slope := period; intercept := 0 |})].
Proof.
  unfold setPeriod. rewrite clearTimestamps_rateMap.
  destruct (RateMap.size (mRateMap st) =? kSizeLimit)%nat;
    [destruct (begin_key (mRateMap st))|];
    cbn [set_idealPeriod set_rateMap mRateMap mIdealPeriod];
    match goal with
    | |- context [RateMap.find ?k ?m] => destruct (RateMap.find k m) eqn:Hf
    end; cbn [set_rateMap mRateMap mIdealPeriod]; try reflexivity;
    unfold RateMap.store; rewrite Hf; reflexivity.
Qed.

End SetPeriod.

(** ** The rate-map invariant *)

Section Invariant.

Context {Fps : Type}.
Variable begin_key : RateMap.t -> option nsecs_t.
Variable getFrameRateDivisor : nsecs_t -> Fps -> Z.
Variable round_ratio : nsecs_t -> nsecs_t -> Z.
Implicit Types (st : VSyncPredictor Fps).

(** The invariant only looks at the keys and the active period. *)
Lemma rate_map_invariant_keys st st' :
  RateMap.keys (mRateMap st') = RateMap.keys (mRateMap st) ->
  mIdealPeriod st' = mIdealPeriod st ->
  rate_map_invariant st -> rate_map_invariant st'.
Proof.
  unfold rate_map_invariant, RateMap.size. intros Hk Hp [Hsize Hentry].
  rewrite RateMapFacts.find_is_Some in *.
  rewrite <- (length_map fst) in *. fold (RateMap.keys (mRateMap st)) in Hsize.
  fold (RateMap.keys (mRateMap st')). rewrite Hk, Hp. auto.
Qed.

Lemma keys_store_present st v :
  rate_map_invariant st ->
  RateMap.keys (RateMap.store (mIdealPeriod st) v (mRateMap st)) = RateMap.keys (mRateMap st).
Proof.
  intros [_ [v' Hf]]. rewrite RateMapFacts.keys_store, Hf. reflexivity.
Qed.

Lemma construct_invariant idealPeriod historySize minimumSamples tolerance :
  rate_map_invariant (construct (Fps := Fps) idealPeriod historySize minimumSamples tolerance).
Proof.
  unfold rate_map_invariant. cbn. rewrite Z.eqb_refl. split; [unfold kSizeLimit; lia | eauto].
Qed.

Lemma resetModel_invariant st : rate_map_invariant st -> rate_map_invariant (resetModel st).
Proof.
  intros Hinv. apply (rate_map_invariant_keys st); [| |exact Hinv]; unfold resetModel.
  - rewrite clearTimestamps_rateMap. cbn. now apply keys_store_present.
  - now rewrite clearTimestamps_idealPeriod.
Qed.

Lemma setPeriod_invariant st period :
  begin_key_lawful begin_key ->
  rate_map_invariant st -> rate_map_invariant (setPeriod begin_key st period).
Proof.
  intros Hlawful [Hsize _]. unfold rate_map_invariant.
  rewrite setPeriod_idealPeriod, setPeriod_rateMap. cbn zeta.
  set (m := if (RateMap.size (mRateMap st) =? kSizeLimit)%nat then _ else _).
  assert (Hm : (RateMap.size m < kSizeLimit)%nat).
  { subst m. destruct (Nat.eqb_spec (RateMap.size (mRateMap st)) kSizeLimit) as [Hfull|]; [|lia].
    destruct (Hlawful (mRateMap st)) as (k & -> & Hin).
    - intros Hnil. rewrite Hnil in Hfull. discriminate.
    - pose proof (RateMapFacts.size_erase k _ Hin). lia. }
  destruct (RateMap.find period m) eqn:Hf.
  - split; [lia | rewrite Hf; eauto].
  - split.
    + unfold RateMap.size in *. rewrite length_app. cbn. lia.
    + rewrite RateMapFacts.find_app, Hf. cbn. rewrite Z.eqb_refl. eauto.
Qed.

Lemma addVsyncTimestamp_invariant st timestamp :
  rate_map_invariant st -> rate_map_invariant (snd (addVsyncTimestamp st timestamp)).
Proof.
  intros Hinv.
  destruct (insertTimestamp_rateMap st timestamp) as (Hmap & Hideal & _).
  assert (Hinv1 : rate_map_invariant (insertTimestamp st timestamp))
    by (apply (rate_map_invariant_keys st); [now rewrite Hmap | exact Hideal | exact Hinv]).
  assert (Hreset : forall v,
    rate_map_invariant (clearTimestamps (commitModel (insertTimestamp st timestamp) v))).
  { intros v. apply (rate_map_invariant_keys (insertTimestamp st timestamp));
      [| |exact Hinv1].
    - rewrite clearTimestamps_rateMap. apply RateMapFacts.keys_assign.
    - now rewrite clearTimestamps_idealPeriod. }
  unfold addVsyncTimestamp.
  destruct (validate st timestamp); cbn [negb].
  - destruct (_ <? _)%nat; cbn [snd].
    + apply (rate_map_invariant_keys (insertTimestamp st timestamp)); [| |exact Hinv1].
      * now apply keys_store_present.
      * reflexivity.
    + destruct (bottom _ =? 0); cbn [snd]; [apply Hreset|].
      destruct (_ <=? _); cbn [snd]; [apply Hreset|].
      apply (rate_map_invariant_keys (insertTimestamp st timestamp)); [| |exact Hinv1].
      * apply RateMapFacts.keys_assign.
      * reflexivity.
  - destruct (_ <? _)%nat; cbn [snd].
    + apply (rate_map_invariant_keys st); [| |exact Hinv].
      * now rewrite clearTimestamps_rateMap.
      * now rewrite clearTimestamps_idealPeriod.
    + destruct (negb _); exact Hinv.
Qed.

Lemma nextAnticipatedVSyncTimeFrom_state st timePoint vsync st' :
  nextAnticipatedVSyncTimeFrom getFrameRateDivisor round_ratio st timePoint
    = Some (vsync, st') ->
  exists last, st' = set_lastVsyncSequence st (Some last).
Proof.
  unfold nextAnticipatedVSyncTimeFrom.
  destruct (getVsyncSequenceLocked round_ratio st timePoint) as [last|]; [|discriminate].
  destruct (_ =? 0).
  - intros [= _ <-]. eauto.
  - destruct (nextAnticipatedVSyncTimeFromLocked _ _); [|discriminate].
    intros [= _ <-]. eauto.
Qed.

Lemma isVSyncInPhase_state st timePoint frameRate res st' :
  rate_map_invariant st ->
  isVSyncInPhase getFrameRateDivisor round_ratio st timePoint frameRate = Some (res, st') ->
  mRateMap st' = mRateMap st /\ mIdealPeriod st' = mIdealPeriod st.
Proof.
  intros [_ Hentry]. unfold isVSyncInPhase, isVSyncInPhaseLocked.
  destruct (_ || _); [intros [= _ <-]; auto|].
  pose proof (RateMapFacts.index_present _ _ Hentry) as Hidx.
  destruct (RateMap.index (mIdealPeriod st) (mRateMap st)) as [model m]. cbn in Hidx. subst m.
  destruct (getVsyncSequenceLocked _ _ _); [|discriminate].
  intros [= _ <-]. auto.
Qed.

Lemma exec_invariant c st st' :
  begin_key_lawful begin_key ->
  rate_map_invariant st ->
  exec begin_key getFrameRateDivisor round_ratio c st = Some st' ->
  rate_map_invariant st'.
Proof.
  intros Hlawful Hinv. destruct c; cbn [exec].
  - intros [= <-]. now apply addVsyncTimestamp_invariant.
  - intros [= <-]. now apply setPeriod_invariant.
  - intros [= <-]. now apply resetModel_invariant.
  - intros [= <-]. exact Hinv.
  - intros [= <-]. exact Hinv.
  - destruct (nextAnticipatedVSyncTimeFrom _ _ _ _) as [[vsync st1]|] eqn:Hnext;
      [|discriminate].
    intros [= <-]. apply nextAnticipatedVSyncTimeFrom_state in Hnext as [last ->].
    exact Hinv.
  - destruct (isVSyncInPhase _ _ _ _ _) as [[res st1]|] eqn:Hphase; [|discriminate].
    intros [= <-]. destruct (isVSyncInPhase_state _ _ _ _ _ Hinv Hphase) as [Hm Hp].
    apply (rate_map_invariant_keys st); [now rewrite Hm | exact Hp | exact Hinv].
  - intros [= <-]. exact Hinv.
  - intros [= <-]. exact Hinv.
  - intros [= <-]. exact Hinv.
Qed.

Lemma run_invariant calls st st' :
  begin_key_lawful begin_key ->
  rate_map_invariant st ->
  run begin_key getFrameRateDivisor round_ratio calls st = Some st' ->
  rate_map_invariant st'.
Proof.
  intros Hlawful. revert st. induction calls as [|c calls IH]; intros st Hinv; cbn [run].
  - intros [= <-]. exact Hinv.
  - destruct (exec _ _ _ c st) as [st1|] eqn:Hexec; [|discriminate].
    apply IH. eapply exec_invariant; eauto.
Qed.

(** C8.  "The rate map has at most 30 entries and holds an entry for the
    active ideal period" is true of a freshly constructed predictor and is
    kept by every public call: [addVsyncTimestamp], [setPeriod],
    [resetModel], [setRenderRate] and the queries; so it is true after any
    sequence of calls.  The only thing asked of the container is that
    [begin()] of a non-empty map designates one of its entries. *)
Theorem rate_map_invariant_always :
  begin_key_lawful begin_key ->
  (forall idealPeriod historySize minimumSamples tolerance,
      rate_map_invariant
        (construct (Fps := Fps) idealPeriod historySize minimumSamples tolerance)) /\
  (forall c st st',
      rate_map_invariant st ->
      exec begin_key getFrameRateDivisor round_ratio c st = Some st' ->
      rate_map_invariant st') /\
  (forall idealPeriod historySize minimumSamples tolerance calls st,
      run begin_key getFrameRateDivisor round_ratio calls
        (construct idealPeriod historySize minimumSamples tolerance) = Some st ->
      rate_map_invariant st).
Proof.
  intros Hlawful. split; [|split].
  - apply construct_invariant.
  - intros c st st' Hinv Hexec. eapply exec_invariant; eauto.
  - intros p h ms tol calls st Hrun.
    eapply run_invariant; [exact Hlawful | apply construct_invariant | exact Hrun].
Qed.

End Invariant.

(** ** Eviction in an insertion-ordered rate map *)

Section InsertionOrder.

Context {Fps : Type}.
Implicit Types (st : VSyncPredictor Fps) (period : nsecs_t).

Lemma oldest_key_lawful : begin_key_lawful RateMap.oldest_key.
Proof.
  intros [|[k v] m] Hne; [congruence|].
  exists k. cbn. auto.
Qed.

(** One [setPeriod] on a full map. *)
Lemma setPeriod_full st period k0 v0 rest :
  mRateMap st = (k0, v0) :: rest ->
  RateMap.size (mRateMap st) = kSizeLimit ->
  mRateMap (setPeriod RateMap.oldest_key st period) =
    if RateMap.find period rest is Some _ then rest
    else rest ++ [(period, {| slope := period; intercept := 0 |})].
Proof.
  intros Hm Hfull. rewrite setPeriod_rateMap. cbn zeta.
  rewrite Hfull, Nat.eqb_refl, Hm. cbn [RateMap.oldest_key RateMap.keys map fst head].
  now rewrite RateMapFacts.keys_erase_head.
Qed.

(** The keys after [setPeriod] to a period the map has not seen. *)
Lemma setPeriod_fresh_keys st period :
  ~ In period (RateMap.keys (mRateMap st)) ->
  RateMap.keys (mRateMap (setPeriod RateMap.oldest_key st period)) =
    (if (RateMap.size (mRateMap st) =? kSizeLimit)%nat
     then tail (RateMap.keys (mRateMap st))
     else RateMap.keys (mRateMap st)) ++ [period].
Proof.
  intros Hfresh. rewrite setPeriod_rateMap. cbn zeta.
  destruct (RateMap.size (mRateMap st) =? kSizeLimit)%nat.
  - destruct (mRateMap st) as [|[k0 v0] rest]; cbn [RateMap.oldest_key RateMap.keys map fst head].
    + cbn. reflexivity.
    + rewrite RateMapFacts.keys_erase_head.
      assert (Hf : RateMap.find period rest = None).
      { apply RateMapFacts.find_None. intros Hin. apply Hfresh. cbn. auto. }
      rewrite Hf. unfold RateMap.keys. rewrite map_app. reflexivity.
  - apply RateMapFacts.find_None in Hfresh. rewrite Hfresh.
    unfold RateMap.keys. rewrite map_app. reflexivity.
Qed.

(** After any number of switches to fresh periods the map holds the 30
    youngest keys, in insertion order. *)
Lemma setPeriods_fresh_keys periods : forall st,
  (length (RateMap.keys (mRateMap st)) <= kSizeLimit)%nat ->
  List.NoDup periods ->
  (forall p, In p periods -> ~ In p (RateMap.keys (mRateMap st))) ->
  RateMap.keys (mRateMap (fold_left (setPeriod RateMap.oldest_key) periods st)) =
    drop (length (RateMap.keys (mRateMap st)) + length periods - kSizeLimit)
         (RateMap.keys (mRateMap st) ++ periods).
Proof.
  induction periods as [|p ps IH]; intros st Hlen Hnd Hfresh; cbn [fold_left].
  - rewrite app_nil_r. cbn [length].
    replace (_ + 0 - kSizeLimit)%nat with 0%nat by lia. reflexivity.
  - inversion Hnd as [|? ? Hp Hnd']; subst.
    pose proof (setPeriod_fresh_keys st p (Hfresh p (or_introl eq_refl))) as Hk.
    assert (Hsize : RateMap.size (mRateMap st) = length (RateMap.keys (mRateMap st)))
      by (unfold RateMap.size, RateMap.keys; now rewrite length_map).
    rewrite Hsize in Hk.
    set (K := RateMap.keys (mRateMap st)) in *.
    rewrite IH; [|rewrite Hk..|exact Hnd'|].
    + rewrite Hk. destruct (Nat.eqb_spec (length K) kSizeLimit) as [Hfull|Hroom].
      * destruct K as [|k0 T]; [discriminate|]. cbn [tail length] in *.
        rewrite length_app. cbn [length].
        replace (length T + 1 + length ps - kSizeLimit)%nat with (length ps) by lia.
        replace (S (length T) + S (length ps) - kSizeLimit)%nat with (S (length ps)) by lia.
        cbn [drop app]. now rewrite <- app_assoc.
      * rewrite length_app. cbn [length].
        replace (length K + 1 + length ps)%nat with (length K + S (length ps))%nat by lia.
        now rewrite <- app_assoc.
    + destruct (Nat.eqb_spec (length K) kSizeLimit) as [Hfull|Hroom];
        rewrite length_app; cbn [length]; [|lia].
      destruct K; [discriminate|]. cbn [tail length] in *. lia.
    + intros q Hq Hin. rewrite Hk in Hin. apply in_app_or in Hin as [Hin|[<-|[]]].
      * apply (Hfresh q (or_intror Hq)).
        destruct (_ =? _)%nat; [|exact Hin].
        destruct K; [destruct Hin | right; exact Hin].
      * contradiction.
Qed.

(** C2.  In a rate map that iterates in insertion order, [setPeriod] on a
    map of 30 entries removes the oldest entry and then appends a trivial
    entry for the new period unless the remaining entries already hold one.
    Starting from a fresh predictor, after 31 calls of [setPeriod] with
    pairwise distinct periods (also distinct from the constructor's) the
    map holds 30 entries, and neither the entry of the constructor's period
    nor that of the first call is among them. *)
Theorem setPeriod_evicts_insertion_oldest :
  (forall st period k0 v0 rest,
      mRateMap st = (k0, v0) :: rest ->
      RateMap.size (mRateMap st) = kSizeLimit ->
      mRateMap (setPeriod RateMap.oldest_key st period) =
        if RateMap.find period rest is Some _ then rest
        else rest ++ [(period, {| slope := period; intercept := 0 |})]) /\
  (forall idealPeriod historySize minimumSamples tolerance periods,
      List.NoDup (idealPeriod :: periods) ->
      length periods = 31%nat ->
      let st := fold_left (setPeriod RateMap.oldest_key) periods
                  (construct (Fps := Fps) idealPeriod historySize minimumSamples tolerance) in
      RateMap.size (mRateMap st) = kSizeLimit /\
      RateMap.find idealPeriod (mRateMap st) = None /\
      RateMap.find (hd 0 periods) (mRateMap st) = None).
Proof.
  split; [exact setPeriod_full|].
  intros p0 h ms tol periods Hnd Hlen st.
  inversion Hnd as [|? ? Hp0 Hnd']; subst.
  assert (Hkeys : RateMap.keys (mRateMap st) = drop 1 periods).
  { subst st. rewrite setPeriods_fresh_keys.
    - cbn. rewrite Hlen. reflexivity.
    - cbn. unfold kSizeLimit. lia.
    - exact Hnd'.
    - cbn. intros p Hin [<-|[]]. contradiction. }
  clearbody st.
  destruct periods as [|p1 rest]; [discriminate|].
  change (drop 1 (p1 :: rest)) with rest in Hkeys. cbn [hd length] in *.
  apply List.NoDup_cons_iff in Hnd' as [Hp1 _].
  split; [|split].
  - unfold RateMap.size. rewrite <- (length_map fst). fold (RateMap.keys (mRateMap st)).
    rewrite Hkeys. unfold kSizeLimit. lia.
  - apply RateMapFacts.find_None. rewrite Hkeys. intros Hin. apply Hp0. right. exact Hin.
  - apply RateMapFacts.find_None. rewrite Hkeys. exact Hp1.
Qed.

End InsertionOrder.

(** ** The ring buffer *)

Section Ring.

Context {Fps : Type}.
Implicit Types (st : VSyncPredictor Fps) (timestamp : nsecs_t).

(** A validated sample is written where [mLastTimestampIndex] then points:
    it is the sample the next [validate] compares against. *)
Lemma insertTimestamp_ring st timestamp :
  ring_ok st ->
  ring_ok (insertTimestamp st timestamp) /\
  aValidTimestamp (insertTimestamp st timestamp) = timestamp /\
  mTimestamps (insertTimestamp st timestamp) <> [].
Proof.
  intros (Hcap & Hlen & Hidx & Hend).
  unfold insertTimestamp, aValidTimestamp, ring_ok, next.
  destruct (Nat.eqb_spec (length (mTimestamps st)) (kHistorySize st)) as [Hfull|Hroom];
    cbn [negb set_timestamps mTimestamps mLastTimestampIndex kHistorySize].
  - assert (Hne : mTimestamps st <> []) by (intros E; rewrite E in Hfull; cbn in Hfull; lia).
    specialize (Hidx Hne).
    pose proof (Z.mod_pos_bound (mLastTimestampIndex st + 1)
                  (Z.of_nat (length (mTimestamps st))) ltac:(lia)) as Hmod.
    set (i := (mLastTimestampIndex st + 1) mod Z.of_nat (length (mTimestamps st))) in *.
    rewrite length_insert.
    split; [|split].
    + repeat split; lia.
    + rewrite list_lookup_insert_eq by lia. reflexivity.
    + intros E. apply (f_equal length) in E. rewrite length_insert in E. cbn in E. lia.
  - rewrite length_app. cbn [length].
    assert (Hi : (mLastTimestampIndex st + 1) mod Z.of_nat (length (mTimestamps st) + 1)
                 = Z.of_nat (length (mTimestamps st))).
    { destruct (mTimestamps st) as [|t ts] eqn:Hts.
      - cbn. apply Z.mod_1_r.
      - rewrite Hend by (congruence || lia).
        replace (Z.of_nat (length (t :: ts)) - 1 + 1) with (Z.of_nat (length (t :: ts)))
          by lia.
        apply Z.mod_small. lia. }
    rewrite Hi. split; [|split].
    + repeat split; lia.
    + rewrite Nat2Z.id, lookup_app_r, Nat.sub_diag by lia. reflexivity.
    + intros E. apply (f_equal length) in E. rewrite length_app in E. cbn in E. lia.
Qed.

Lemma clearTimestamps_ring st :
  (0 < kHistorySize st)%nat -> ring_ok (clearTimestamps st).
Proof.
  intros Hcap. unfold ring_ok.
  assert (Hk : kHistorySize (clearTimestamps st) = kHistorySize st).
  { unfold clearTimestamps. destruct (mTimestamps st); [reflexivity|].
    destruct (mKnownTimestamp st); reflexivity. }
  rewrite Hk, clearTimestamps_timestamps. cbn. repeat split; (lia || congruence).
Qed.

Lemma addVsyncTimestamp_ring st timestamp :
  ring_ok st -> ring_ok (snd (addVsyncTimestamp st timestamp)).
Proof.
  intros Hring.
  destruct (insertTimestamp_ring st timestamp Hring) as (Hring1 & _ & _).
  assert (Hcap : (0 < kHistorySize st)%nat) by apply Hring.
  assert (Hcap1 : (0 < kHistorySize (insertTimestamp st timestamp))%nat) by apply Hring1.
  unfold addVsyncTimestamp.
  destruct (validate st timestamp); cbn [negb].
  - destruct (_ <? _)%nat; cbn [snd]; [exact Hring1|].
    destruct (bottom _ =? 0); cbn [snd]; [apply clearTimestamps_ring; exact Hcap1|].
    destruct (_ <=? _); cbn [snd]; [apply clearTimestamps_ring; exact Hcap1 | exact Hring1].
  - destruct (_ <? _)%nat; cbn [snd]; [apply clearTimestamps_ring; exact Hcap|].
    destruct (negb _); exact Hring.
Qed.

(** In a well-formed ring "a sample has been written" is "the buffer is not
    empty". *)
Lemma ring_has_sample st : ring_ok st -> mTimestamps st <> [] -> has_sample st.
Proof. intros (_ & _ & Hidx & _) Hne. split; auto. Qed.

Lemma construct_ring idealPeriod historySize minimumSamples tolerance :
  (0 < historySize)%nat ->
  ring_ok (construct (Fps := Fps) idealPeriod historySize minimumSamples tolerance).
Proof. intros Hcap. unfold ring_ok. cbn. repeat split; (lia || congruence). Qed.

End Ring.

(** ** States a caller can bring about *)

Section Reachable.

Context {Fps : Type}.
Variable begin_key : RateMap.t -> option nsecs_t.
Variable getFrameRateDivisor : nsecs_t -> Fps -> Z.
Variable round_ratio : nsecs_t -> nsecs_t -> Z.
Implicit Types (st : VSyncPredictor Fps).

Lemma clearTimestamps_constants st : constants (clearTimestamps st) = constants st.
Proof.
  unfold clearTimestamps. destruct (mTimestamps st); [reflexivity|].
  destruct (mKnownTimestamp st); reflexivity.
Qed.

Lemma insertTimestamp_constants st timestamp :
  constants (insertTimestamp st timestamp) = constants st.
Proof. unfold insertTimestamp. destruct (negb _); reflexivity. Qed.

Lemma addVsyncTimestamp_constants st timestamp :
  constants (snd (addVsyncTimestamp st timestamp)) = constants st.
Proof.
  pose proof (insertTimestamp_constants st timestamp) as Hins.
  unfold addVsyncTimestamp.
  destruct (validate st timestamp); cbn [negb].
  - destruct (_ <? _)%nat; cbn [snd]; [exact Hins|].
    destruct (bottom _ =? 0); cbn [snd];
      [rewrite clearTimestamps_constants; exact Hins|].
    destruct (_ <=? _); cbn [snd]; [rewrite clearTimestamps_constants|]; exact Hins.
  - destruct (_ <? _)%nat; cbn [snd]; [now rewrite clearTimestamps_constants|].
    destruct (negb _); reflexivity.
Qed.

Lemma resetModel_constants st : constants (resetModel st) = constants st.
Proof. unfold resetModel. now rewrite clearTimestamps_constants. Qed.

Lemma setPeriod_constants st period :
  constants (setPeriod begin_key st period) = constants st.
Proof.
  unfold setPeriod. rewrite clearTimestamps_constants.
  destruct (RateMap.size (mRateMap st) =? kSizeLimit)%nat;
    [destruct (begin_key (mRateMap st))|];
    cbn [set_idealPeriod set_rateMap mRateMap mIdealPeriod];
    match goal with
    | |- context [RateMap.find ?k ?m] => destruct (RateMap.find k m)
    end; reflexivity.
Qed.

(** What a query may change: the cached sequence, or (through
    [mRateMap[mIdealPeriod]]) the rate map. *)
Lemma isVSyncInPhase_frame st timePoint frameRate res st' :
  isVSyncInPhase getFrameRateDivisor round_ratio st timePoint frameRate = Some (res, st') ->
  st' = st \/ exists m, st' = set_rateMap st m.
Proof.
  unfold isVSyncInPhase, isVSyncInPhaseLocked.
  destruct (_ || _); [intros [= _ <-]; auto|].
  destruct (RateMap.index (mIdealPeriod st) (mRateMap st)) as [model m].
  destruct (getVsyncSequenceLocked _ _ _); [|discriminate].
  intros [= _ <-]. eauto.
Qed.

Lemma exec_constants c st st' :
  exec begin_key getFrameRateDivisor round_ratio c st = Some st' ->
  constants st' = constants st.
Proof.
  destruct c; cbn [exec]; try (intros [= <-]; reflexivity).
  - intros [= <-]. apply addVsyncTimestamp_constants.
  - intros [= <-]. apply setPeriod_constants.
  - intros [= <-]. apply resetModel_constants.
  - destruct (nextAnticipatedVSyncTimeFrom _ _ _ _) as [[vsync st1]|] eqn:Hnext;
      [|discriminate].
    intros [= <-]. apply nextAnticipatedVSyncTimeFrom_state in Hnext as [last ->].
    reflexivity.
  - destruct (isVSyncInPhase _ _ _ _ _) as [[res st1]|] eqn:Hphase; [|discriminate].
    intros [= <-]. apply isVSyncInPhase_frame in Hphase as [->|[m ->]]; reflexivity.
Qed.

Lemma exec_ring c st st' :
  exec begin_key getFrameRateDivisor round_ratio c st = Some st' ->
  ring_ok st -> ring_ok st'.
Proof.
  intros Hexec Hring.
  assert (Hcap : (0 < kHistorySize st)%nat) by apply Hring.
  destruct c; cbn [exec] in Hexec; try (injection Hexec as <-; exact Hring).
  - injection Hexec as <-. now apply addVsyncTimestamp_ring.
  - injection Hexec as <-. unfold setPeriod. apply clearTimestamps_ring.
    destruct (RateMap.size (mRateMap st) =? kSizeLimit)%nat;
      [destruct (begin_key (mRateMap st))|];
      cbn [set_idealPeriod set_rateMap mRateMap mIdealPeriod];
      match goal with
      | |- context [RateMap.find ?k ?m] => destruct (RateMap.find k m)
      end; exact Hcap.
  - injection Hexec as <-. unfold resetModel. apply clearTimestamps_ring. exact Hcap.
  - destruct (nextAnticipatedVSyncTimeFrom _ _ _ _) as [[vsync st1]|] eqn:Hnext;
      [|discriminate].
    injection Hexec as <-. apply nextAnticipatedVSyncTimeFrom_state in Hnext as [last ->].
    exact Hring.
  - destruct (isVSyncInPhase _ _ _ _ _) as [[res st1]|] eqn:Hphase; [|discriminate].
    injection Hexec as <-. apply isVSyncInPhase_frame in Hphase as [->|[m ->]]; exact Hring.
Qed.

(** Every state reached from a constructor call with a non-empty history and
    a [uint32_t] tolerance has a well-formed ring and a tolerance between 0
    and 100: whenever its buffer holds a sample, [has_sample] and
    [tolerance_ok] are at hand. *)
Lemma run_wellformed calls : forall st st',
  run begin_key getFrameRateDivisor round_ratio calls st = Some st' ->
  ring_ok st -> tolerance_ok st ->
  ring_ok st' /\ tolerance_ok st'.
Proof.
  induction calls as [|c calls IH]; intros st st'; cbn [run].
  - intros [= <-]. auto.
  - destruct (exec _ _ _ c st) as [st1|] eqn:Hexec; [|discriminate].
    intros Hrun Hring Htol. apply (IH st1 st' Hrun).
    + eapply exec_ring; eauto.
    + apply exec_constants in Hexec. unfold tolerance_ok, constants in *.
      injection Hexec as _ _ ->. exact Htol.
Qed.

Lemma construct_tolerance_ok idealPeriod historySize minimumSamples tolerance :
  0 <= tolerance ->
  tolerance_ok (construct (Fps := Fps) idealPeriod historySize minimumSamples tolerance).
Proof.
  intros Hnn. unfold tolerance_ok.
  change (kOutlierTolerancePercent (construct idealPeriod historySize minimumSamples tolerance))
    with (Z.min tolerance kMaxPercent).
  unfold kMaxPercent. lia.
Qed.

End Reachable.

(** ** The statements on the sample configurations *)

Lemma example_converged_warm : warm example_converged.
Proof. split; by_evaluation. Qed.

Lemma example_converged_has_sample : has_sample example_converged.
Proof. split; by_evaluation. Qed.




Lemma setPeriod_evicts_insertion_oldest_witness :
  List.NoDup (100 :: example_periods) /\
  length example_periods = 31%nat /\
  RateMap.find 100
    (mRateMap (fold_left (setPeriod RateMap.oldest_key) example_periods example_fresh)) = None.
Proof.
  assert (Hnd : List.NoDup (100 :: example_periods)).
  { apply NoDup_ListNoDup.
    apply (bool_decide_unpack (NoDup (100 :: example_periods))). by_evaluation. }
  assert (Hlen : length example_periods = 31%nat) by by_evaluation.
  split; [exact Hnd|]. split; [exact Hlen|].
  exact (proj1 (proj2 (proj2 (setPeriod_evicts_insertion_oldest (Fps := unit))
                         100 10%nat 3%nat 10 example_periods Hnd Hlen))).
Defined.

(** C3 as stated fails: 200 lies on the grid of [example_converged] (zero
    point 0, slope 100) and ordinal 2 is the smallest one not before it, but
    the prediction from 200 is 300, the vsync at ordinal 3. *)
Lemma grid_point_is_not_its_own_prediction :
  warm example_converged /\
  smallest_ordinal_not_before example_converged 200 2 /\
  nextAnticipatedVSyncTimeFromLocked example_converged 200 = Some 300 /\
  ~ (forall ordinal,
        smallest_ordinal_not_before example_converged 200 ordinal ->
        nextAnticipatedVSyncTimeFromLocked example_converged 200
          = Some (vsyncAt example_converged ordinal)) /\
  nextAnticipatedVSyncTimeFromLocked example_converged 200 <> Some 200.
Proof.
  assert (Hzero : zeroPoint example_converged = 0) by by_evaluation.
  assert (Hslope : slope (getVSyncPredictionModelLocked example_converged) = 100)
    by by_evaluation.
  assert (Hpred : nextAnticipatedVSyncTimeFromLocked example_converged 200 = Some 300)
    by by_evaluation.
  assert (Hsmallest : smallest_ordinal_not_before example_converged 200 2).
  { unfold smallest_ordinal_not_before, vsyncAt. rewrite Hzero, Hslope. split; [lia|].
    intros k. lia. }
  split; [exact example_converged_warm|]. split; [exact Hsmallest|].
  split; [exact Hpred|]. split.
  - intros Hclaim. specialize (Hclaim 2 Hsmallest).
    unfold vsyncAt in Hclaim. rewrite Hpred, Hzero, Hslope in Hclaim. discriminate.
  - rewrite Hpred. discriminate.
Qed.

Lemma warm_prediction_is_next_vsync_after_witness :
  warm example_converged /\
  in_int64 200 /\
  zeroPoint example_converged - slope (getVSyncPredictionModelLocked example_converged) <= 200 /\
  200 - zeroPoint example_converged + slope (getVSyncPredictionModelLocked example_converged)
    <= int64_max /\
  200 + slope (getVSyncPredictionModelLocked example_converged) <= int64_max /\
  nextAnticipatedVSyncTimeFromLocked example_converged 200
    = Some (vsyncAt example_converged 3) /\
  smallest_ordinal_after example_converged 200 3 /\
  nextAnticipatedVSyncTimeFromLocked example_converged 200
    = Some (200 + slope (getVSyncPredictionModelLocked example_converged)).
Proof.
  assert (Hwarm : warm example_converged) by (split; by_evaluation).
  assert (Htp : in_int64 200) by by_evaluation.
  assert (Hfrom : zeroPoint example_converged
                    - slope (getVSyncPredictionModelLocked example_converged) <= 200)
    by by_evaluation.
  assert (Hnum : 200 - zeroPoint example_converged
                 + slope (getVSyncPredictionModelLocked example_converged) <= int64_max)
    by by_evaluation.
  assert (Hroom : 200 + slope (getVSyncPredictionModelLocked example_converged) <= int64_max)
    by by_evaluation.
  split; [exact Hwarm|]. split; [exact Htp|]. split; [exact Hfrom|].
  split; [exact Hnum|]. split; [exact Hroom|].
  destruct (warm_prediction_is_next_vsync_after example_converged 200
              Hwarm Htp Hfrom Hnum Hroom) as (Heq & Hord & Hgrid).
  split; [exact Heq|]. split; [exact Hord|].
  apply (Hgrid 2); by_evaluation.
Defined.

(** Further than one period before the zero point the truncating division
    rounds the other way: from -250 the prediction is -100, one vsync past
    the first one after the time point, -200. *)
Example prediction_far_before_zero_point :
  nextAnticipatedVSyncTimeFromLocked example_converged (-250) = Some (-100) /\
  smallest_ordinal_after example_converged (-250) (-2) /\
  vsyncAt example_converged (-2) = -200.
Proof.
  assert (Hzero : zeroPoint example_converged = 0) by by_evaluation.
  assert (Hslope : slope (getVSyncPredictionModelLocked example_converged) = 100)
    by by_evaluation.
  split; [by_evaluation|]. split; [|by_evaluation].
  unfold smallest_ordinal_after, vsyncAt. rewrite Hzero, Hslope. split; [lia|].
  intros k. lia.
Qed.






(** The products of line 194 and line 204 are 64-bit products.  At 60 Hz
    (period 16666666 ns) two samples 1100 periods apart, 18.3 s, give
    [top * kScalingFactor = 10083332930000000000], above [INT64_MAX]: the
    fitted slope comes out negative, 182 percent off, and the model is
    reset, where the exact quotient would have been the period itself. *)
Example fit_overflows_across_a_long_gap :
  let st := feed (construct (Fps := unit) 16666666 20 2 10) [0] in
  let r := regression [0; 18333332600] 16666666 in
  validate st 18333332600 = true /\
  int64_max < top r * kScalingFactor /\
  Z.quot (top r * kScalingFactor) (bottom r) = 16666666 /\
  fit_anticipatedPeriod r = -13823820 /\
  fit_percent r 16666666 = 182 /\
  fst (addVsyncTimestamp st 18333332600) = false /\
  mTimestamps (snd (addVsyncTimestamp st 18333332600)) = [].
Proof. by_evaluation. Qed.

Lemma rate_map_invariant_always_witness :
  begin_key_lawful RateMap.oldest_key /\
  rate_map_invariant example_fresh /\
  exists st,
    run RateMap.oldest_key example_divisor example_round_ratio
      [CallAddVsyncTimestamp 0; CallSetPeriod 200; CallNextAnticipatedVSyncTimeFrom 50;
       CallSetRenderRate tt; CallIsVSyncInPhase 70 tt; CallResetModel]
      example_fresh = Some st /\
    rate_map_invariant st.
Proof.
  pose proof (rate_map_invariant_always RateMap.oldest_key example_divisor example_round_ratio
                oldest_key_lawful) as (Hfresh & _ & Hrun).
  split; [exact oldest_key_lawful|].
  split; [exact (Hfresh 100 10%nat 3%nat 10)|].
  eexists. split; [by_evaluation|].
  apply (Hrun 100 10%nat 3%nat 10
           [CallAddVsyncTimestamp 0; CallSetPeriod 200; CallNextAnticipatedVSyncTimeFrom 50;
            CallSetRenderRate tt; CallIsVSyncInPhase 70 tt; CallResetModel]).
  by_evaluation.
Defined.

Lemma setPeriod_clears_buffer_and_carries_known_witness :
  mTimestamps example_converged <> [] /\
  mTimestamps (setPeriod RateMap.oldest_key example_converged 200) = [] /\
  exists maxRb,
    is_maximum maxRb (mTimestamps example_converged) /\
    mKnownTimestamp (setPeriod RateMap.oldest_key example_converged 200) =
      Some (match mKnownTimestamp example_converged with
            | Some known => Z.max known maxRb
            | None => maxRb
            end).
Proof.
  assert (Hne : mTimestamps example_converged <> []) by by_evaluation.
  split; [exact Hne|].
  destruct (setPeriod_clears_buffer_and_carries_known RateMap.oldest_key
              example_converged 200) as [Hts Hknown].
  split; [exact Hts | exact (Hknown Hne)].
Defined.



(** * Further properties of the code *)

(** ** The validator *)

Section ValidateMore.

Context {Fps : Type}.
Implicit Types (st : VSyncPredictor Fps) (timestamp : nsecs_t).

Lemma addVsyncTimestamp_rejects st timestamp :
  validate st timestamp = false -> fst (addVsyncTimestamp st timestamp) = false.
Proof.
  intros Hv. unfold addVsyncTimestamp. rewrite Hv. cbn [negb].
  destruct (_ <? _)%nat; [reflexivity|]. destruct (negb _); reflexivity.
Qed.


(** X2.  A hardware event delivered twice is not counted twice: with a
    positive ideal period and a tolerance of at least one percent, a
    timestamp that is already in the buffer is rejected by [validate], and
    [addVsyncTimestamp] returns false for it. *)
Theorem buffered_timestamp_is_rejected st timestamp :
  has_sample st ->
  0 < mIdealPeriod st ->
  0 < kOutlierTolerancePercent st ->
  In timestamp (mTimestamps st) ->
  validate st timestamp = false /\
  fst (addVsyncTimestamp st timestamp) = false.
Proof.
  intros Hs Hp Htol Hin.
  assert (Hv : validate st timestamp = false).
  { rewrite validate_has_sample by exact Hs.
    assert (Hdup : duplicateRejects st timestamp = true).
    { apply duplicateRejects_distance; [exact Hp|].
      destruct (nearestTimestamp_closest st timestamp (proj1 Hs)) as [_ Hall].
      rewrite List.Forall_forall in Hall. specialize (Hall _ Hin).
      unfold distancePercent.
      replace (nearestTimestamp st timestamp - timestamp) with 0 by lia.
      cbn. rewrite Z.quot_0_l by lia. exact Htol. }
    rewrite Hdup, orb_true_r. reflexivity. }
  split; [exact Hv | apply addVsyncTimestamp_rejects; exact Hv].
Qed.


End ValidateMore.

(** ** The ring *)

Section RingMore.

Context {Fps : Type}.
Variable begin_key : RateMap.t -> option nsecs_t.
Variable getFrameRateDivisor : nsecs_t -> Fps -> Z.
Variable round_ratio : nsecs_t -> nsecs_t -> Z.
Implicit Types (st : VSyncPredictor Fps) (timestamp : nsecs_t).

(** X4.  The ring insertion of lines 125-131, for a well-formed ring: below
    capacity the sample is appended; at capacity it replaces the slot that
    follows the last written one and the size stays; either way
    [mLastTimestampIndex] then designates the new sample, which is what the
    next [validate] compares with. *)
Theorem insertTimestamp_appends_or_overwrites st timestamp :
  ring_ok st ->
  let st' := insertTimestamp st timestamp in
  ((length (mTimestamps st) < kHistorySize st)%nat ->
   mTimestamps st' = mTimestamps st ++ [timestamp]) /\
  (length (mTimestamps st) = kHistorySize st ->
   mTimestamps st' =
     <[Z.to_nat ((mLastTimestampIndex st + 1) mod Z.of_nat (kHistorySize st))
       := timestamp]> (mTimestamps st) /\
   length (mTimestamps st') = kHistorySize st) /\
  mTimestamps st' !! Z.to_nat (mLastTimestampIndex st') = Some timestamp /\
  aValidTimestamp st' = timestamp /\
  ring_ok st'.
Proof.
  intros Hring. cbn zeta.
  destruct (insertTimestamp_ring st timestamp Hring) as (Hring' & Hlast & Hne).
  split; [|split; [|split; [|split]]]; try assumption.
  - intros Hlt. unfold insertTimestamp.
    destruct (Nat.eqb_spec (length (mTimestamps st)) (kHistorySize st)); [lia|].
    reflexivity.
  - intros Hfull. unfold insertTimestamp, next. rewrite Hfull, Nat.eqb_refl. cbn.
    split; [reflexivity|]. rewrite length_insert. exact Hfull.
  - destruct Hring' as (_ & _ & Hidx & _). specialize (Hidx Hne).
    unfold aValidTimestamp in Hlast.
    destruct (mTimestamps (insertTimestamp st timestamp)
                !! Z.to_nat (mLastTimestampIndex (insertTimestamp st timestamp)))
      as [x|] eqn:Hlook.
    + cbn in Hlast. congruence.
    + apply lookup_ge_None in Hlook. lia.
Qed.

Lemma run_constants calls : forall st st',
  run begin_key getFrameRateDivisor round_ratio calls st = Some st' ->
  constants st' = constants st.
Proof.
  induction calls as [|c calls IH]; intros st st'; cbn [run].
  - intros [= <-]. reflexivity.
  - destruct (exec _ _ _ c st) as [st1|] eqn:Hexec; [|discriminate].
    intros Hrun. rewrite (IH _ _ Hrun). eapply exec_constants; eauto.
Qed.

(** X5.  Bounded memory.  For a predictor constructed with a history size
    of at least 1 and a [uint32_t] tolerance, after any sequence of public
    calls the buffer holds at most [historySize] samples,
    [mLastTimestampIndex] lies inside a non-empty buffer, and the three
    constants are what the constructor stored: the sizes as given, the
    tolerance capped at 100. *)
Theorem buffer_stays_within_history
    idealPeriod historySize minimumSamples tolerance calls st :
  (0 < historySize)%nat ->
  0 <= tolerance ->
  run begin_key getFrameRateDivisor round_ratio calls
    (construct idealPeriod historySize minimumSamples tolerance) = Some st ->
  (length (mTimestamps st) <= historySize)%nat /\
  (mTimestamps st <> [] ->
   0 <= mLastTimestampIndex st < Z.of_nat (length (mTimestamps st))) /\
  kHistorySize st = historySize /\
  kMinimumSamplesForPrediction st = minimumSamples /\
  kOutlierTolerancePercent st = Z.min tolerance kMaxPercent /\
  0 <= kOutlierTolerancePercent st <= kMaxPercent.
Proof.
  intros Hcap Htol Hrun.
  pose proof (run_constants _ _ _ Hrun) as Hconst.
  destruct (run_wellformed begin_key getFrameRateDivisor round_ratio calls _ _ Hrun
              (construct_ring idealPeriod historySize minimumSamples tolerance Hcap)
              (construct_tolerance_ok idealPeriod historySize minimumSamples tolerance Htol))
    as [(_ & Hlen & Hidx & _) Htol'].
  unfold constants in Hconst.
  change (kHistorySize (construct idealPeriod historySize minimumSamples tolerance))
    with historySize in Hconst.
  change (kMinimumSamplesForPrediction
            (construct idealPeriod historySize minimumSamples tolerance))
    with minimumSamples in Hconst.
  change (kOutlierTolerancePercent
            (construct idealPeriod historySize minimumSamples tolerance))
    with (Z.min tolerance kMaxPercent) in Hconst.
  injection Hconst as Hh Hm Ht.
  rewrite Hh in Hlen.
  split; [exact Hlen|]. split; [exact Hidx|]. split; [exact Hh|].
  split; [exact Hm|]. split; [exact Ht|]. exact Htol'.
Qed.

End RingMore.

(** ** Degenerate fits *)

Section SingleSample.

Context {Fps : Type}.
Implicit Types (st : VSyncPredictor Fps) (timestamp : nsecs_t).

(** One sample has no ordinal spread, whatever the current period. *)
Lemma regression_single t currentPeriod : bottom (regression [t] currentPeriod) = 0.
Proof.
  unfold regression, fit_vsyncTS.
  cbn [min_element min_element_by fold_left map length bottom Int64.sum].
  set (o := fit_ordinal currentPeriod (Int64.sub t t)).
  assert (Hmean : div_size_t (Int64.add 0 o) 1 = Int64.wrap o).
  { unfold Int64.add. rewrite Z.add_0_l. apply div_size_t_one, wrap_in_int64. }
  rewrite Hmean.
  assert (Int64.sub o (Int64.wrap o) = 0) as ->; [|reflexivity].
  int64_exact. unfold in_int64, int64_min, int64_max. lia.
Qed.

(** X6.  A fit needs two samples.  With [kMinimumSamplesForPrediction] at 0
    or 1, a sample that arrives on an empty buffer is fitted alone, the
    denominator of the regression is 0, and the fit is rejected:
    [addVsyncTimestamp] returns false, the buffer is empty again, the model
    of the active period is the trivial one and the known timestamp takes in
    the sample.  Such a predictor never leaves the cold path. *)
Theorem single_sample_fit_is_rejected st timestamp :
  mTimestamps st = [] ->
  (0 < kHistorySize st)%nat ->
  (kMinimumSamplesForPrediction st <= 1)%nat ->
  rate_map_invariant st ->
  let st' := snd (addVsyncTimestamp st timestamp) in
  fst (addVsyncTimestamp st timestamp) = false /\
  mTimestamps st' = [] /\
  getVSyncPredictionModel st' = {| slope := mIdealPeriod st; intercept := 0 |} /\
  mKnownTimestamp st' =
    Some (match mKnownTimestamp st with
          | Some known => Z.max known timestamp
          | None => timestamp
          end).
Proof.
  intros Hts Hcap Hmin [_ Hentry]. cbn zeta.
  assert (Hv : validate st timestamp = true).
  { unfold validate. rewrite (bool_decide_eq_true_2 _ Hts), orb_true_r. reflexivity. }
  assert (Hins : insertTimestamp st timestamp
                 = set_timestamps st [timestamp] ((mLastTimestampIndex st + 1) mod 1)).
  { unfold insertTimestamp, next. rewrite Hts. cbn [length app].
    destruct (Nat.eqb_spec 0 (kHistorySize st)); [lia|]. reflexivity. }
  unfold addVsyncTimestamp. rewrite Hv, Hins. cbn [negb].
  cbn [set_timestamps mTimestamps kMinimumSamplesForPrediction mIdealPeriod mRateMap length].
  destruct (Nat.ltb_spec 1 (kMinimumSamplesForPrediction st)); [lia|].
  rewrite regression_single. cbn [Z.eqb fst snd].
  split; [reflexivity|]. split; [apply clearTimestamps_timestamps|]. split.
  - unfold getVSyncPredictionModel. rewrite clearTimestamps_model.
    unfold getVSyncPredictionModelLocked. cbn [commitModel set_rateMap set_timestamps
      mIdealPeriod mRateMap].
    rewrite RateMapFacts.find_assign by exact Hentry. reflexivity.
  - unfold clearTimestamps. cbn [commitModel set_rateMap set_timestamps mTimestamps
      mKnownTimestamp max_element max_element_by fold_left].
    destruct (mKnownTimestamp st); reflexivity.
Qed.

End SingleSample.

(** ** The fit of a steady display *)

Lemma sum_cons x l : sum (x :: l) = x + sum l.
Proof. unfold sum. cbn. apply fold_left_add_acc. Qed.

Lemma sum_app l l' : sum (l ++ l') = sum l + sum l'.
Proof.
  induction l as [|x l IH]; [reflexivity|].
  rewrite <- app_comm_cons, !sum_cons, IH. lia.
Qed.

Lemma sum_map_combine {A : Type} (f g : A -> Z) a b (l : list A) :
  sum (map (fun i => a * f i + b * g i) l) = a * sum (map f l) + b * sum (map g l).
Proof.
  induction l as [|x l IH]; [cbn; lia|].
  cbn [map]. rewrite !sum_cons, IH. lia.
Qed.

Lemma sum_map_bound {A : Type} (f : A -> Z) c (l : list A) :
  (forall x, In x l -> 0 <= f x <= c) ->
  0 <= sum (map f l) <= c * Z.of_nat (length l).
Proof.
  induction l as [|x l IH]; intros Hf; [cbn; lia|].
  cbn [map length]. rewrite sum_cons.
  specialize (IH (fun y Hy => Hf y (or_intror Hy))).
  specialize (Hf x (or_introl eq_refl)). lia.
Qed.

Lemma sum_squares_nonneg {A : Type} (f : A -> Z) (l : list A) :
  0 <= sum (map (fun i => f i * f i) l).
Proof.
  induction l as [|x l IH]; [cbn; lia|].
  cbn [map]. rewrite sum_cons. nia.
Qed.

Lemma zip_with_map_diag {A : Type} (op : Z -> Z -> Z) (f g : A -> Z) (l : list A) :
  zip_with op (map f l) (map g l) = map (fun i => op (f i) (g i)) l.
Proof. induction l as [|x l IH]; cbn; [reflexivity | now rewrite IH]. Qed.

(** A loop of [acc += f(x)] computes the exact sum of any [g] that agrees
    with [f] modulo 2^64, wrapped once. *)
Lemma int64_sum_map {A : Type} (f g : A -> Z) (l : list A) :
  (forall x, Int64.eqm (f x) (g x)) ->
  Int64.sum (map f l) = Int64.wrap (sum (map g l)).
Proof.
  intros Hfg. rewrite int64_sum_wrap.
  change (Int64.eqm (sum (map f l)) (sum (map g l))).
  induction l as [|x l IH]; [reflexivity|].
  cbn [map]. rewrite !sum_cons. apply eqm_add; [apply Hfg | exact IH].
Qed.

(** Twice the sum of 0 .. n-1. *)
Lemma sum_indices n :
  2 * sum (map Z.of_nat (List.seq 0 n)) = Z.of_nat n * (Z.of_nat n - 1).
Proof.
  induction n as [|n IH]; [reflexivity|].
  rewrite seq_S, map_app, sum_app. cbn [map Nat.add]. rewrite sum_cons.
  change (sum []) with 0. lia.
Qed.

Lemma grid_min t0 period n :
  0 <= period -> (0 < n)%nat -> min_element (grid t0 period n) = t0.
Proof.
  intros Hp Hn. destruct n as [|n]; [lia|].
  assert (Hin : In t0 (grid t0 period (S n))) by (cbn; left; lia).
  assert (Hall : Forall (fun x => t0 <= x) (grid t0 period (S n))).
  { unfold grid. apply List.Forall_forall. intros x Hx.
    apply in_map_iff in Hx as (i & <- & _). nia. }
  remember (grid t0 period (S n)) as l eqn:Hl.
  destruct l as [|x xs]; [discriminate|].
  destruct (min_element_spec x xs) as [Hin' Hall'].
  rewrite List.Forall_forall in Hall, Hall'.
  specialize (Hall _ Hin'). specialize (Hall' _ Hin). lia.
Qed.

(** Line 178 where nothing overflows: a relative timestamp [v] that lies
    within half a current period of [i] current periods snaps to ordinal
    [i]. *)
Lemma fit_ordinal_snaps currentPeriod v i :
  0 < currentPeriod ->
  0 <= i ->
  0 <= v ->
  0 <= v - i * currentPeriod + Z.quot currentPeriod 2 < currentPeriod ->
  v + currentPeriod <= int64_max ->
  kScalingFactor * i <= int64_max ->
  fit_ordinal currentPeriod v = kScalingFactor * i.
Proof.
  intros Hcp Hi Hv0 Hnear Hv Hki. unfold fit_ordinal.
  destruct (Z.eqb_spec currentPeriod 0); [lia|].
  pose proof (Z.quot_rem' currentPeriod 2) as Hq.
  pose proof (Z.rem_bound_pos currentPeriod 2 ltac:(lia) ltac:(lia)) as Hr.
  unfold kScalingFactor, int64_max in *.
  assert (Hh : Int64.quot currentPeriod 2 = Z.quot currentPeriod 2).
  { apply int64_quot_pos; [|lia]. unfold in_int64, int64_min, int64_max. nia. }
  rewrite Hh. set (h := Z.quot currentPeriod 2) in *.
  assert (Hsum : Int64.add v h = v + h).
  { int64_exact. unfold in_int64, int64_min, int64_max. nia. }
  rewrite Hsum.
  assert (Hquot : Z.quot (v + h) currentPeriod = i).
  { replace (v + h) with (i * currentPeriod + (v - i * currentPeriod + h)) by lia.
    rewrite Z.quot_div_nonneg by nia.
    rewrite Z.add_comm, Z.div_add by lia.
    rewrite Z.div_small by lia. lia. }
  rewrite int64_quot_pos, Hquot by (try lia; unfold in_int64, int64_min, int64_max; nia).
  int64_exact. unfold in_int64, int64_min, int64_max. lia.
Qed.

Lemma sum_map_scale {A : Type} (f : A -> Z) c (l : list A) :
  sum (map (fun i => c * f i) l) = c * sum (map f l).
Proof.
  induction l as [|x l IH]; [cbn; lia|].
  cbn [map]. rewrite !sum_cons, IH. lia.
Qed.

Lemma sum_map_sub_const {A : Type} (f : A -> Z) c (l : list A) :
  sum (map (fun i => f i - c) l) = sum (map f l) - c * Z.of_nat (length l).
Proof.
  induction l as [|x l IH]; [cbn; lia|].
  cbn [map length]. rewrite !sum_cons, IH. lia.
Qed.

Lemma grid_length t0 period n : length (grid t0 period n) = n.
Proof. unfold grid. now rewrite length_map, length_seq. Qed.

(** The fit of [n] samples spaced [period] apart, given that each snaps to
    its own ordinal, and that [10^6 * period * n^3] fits in 64 bits. *)
Lemma regression_on_grid t0 period currentPeriod n :
  0 < period ->
  (2 <= n)%nat ->
  (forall i, (i < n)%nat ->
     fit_ordinal currentPeriod (period * Z.of_nat i) = kScalingFactor * Z.of_nat i) ->
  kScalingFactor * kScalingFactor * period * Z.of_nat n ^ 3 <= int64_max ->
  let r := regression (grid t0 period n) currentPeriod in
  0 < bottom r /\
  fit_anticipatedPeriod r = period /\
  fit_intercept r = 0.
Proof.
  intros Hp Hn Hord Hbound. cbn zeta.
  unfold kScalingFactor, int64_max in *.
  replace (Z.of_nat n ^ 3) with (Z.of_nat n * Z.of_nat n * Z.of_nat n) in Hbound by ring.
  assert (Hn2 : 2 <= Z.of_nat n) by lia.
  assert (Hnn : 4 <= Z.of_nat n * Z.of_nat n) by nia.
  assert (Hnnn : 8 <= Z.of_nat n * Z.of_nat n * Z.of_nat n) by nia.
  assert (HboundP : 1000000 * (period * Z.of_nat n * Z.of_nat n) < 2 ^ 62) by nia.
  assert (HboundN : 1000000 * (Z.of_nat n * Z.of_nat n * Z.of_nat n) < 2 ^ 63) by nia.
  set (I := List.seq 0 n).
  set (T := sum (map Z.of_nat I)).
  assert (HT : 2 * T = Z.of_nat n * (Z.of_nat n - 1)) by apply sum_indices.
  assert (HlenI : length I = n) by apply length_seq.
  assert (HinI : forall i, In i I -> 0 <= Z.of_nat i < Z.of_nat n).
  { intros i Hi. apply in_seq in Hi. lia. }
  assert (Hvs : fit_vsyncTS (grid t0 period n) = map (fun i => period * Z.of_nat i) I).
  { unfold fit_vsyncTS. rewrite grid_min by lia. unfold grid. rewrite map_map.
    apply map_ext_in. intros i Hi. apply HinI in Hi.
    int64_exact. unfold in_int64, int64_min, int64_max. nia. }
  assert (Hos : map (fit_ordinal currentPeriod) (map (fun i => period * Z.of_nat i) I)
                = map (fun i => 1000 * Z.of_nat i) I).
  { rewrite map_map. apply map_ext_in. intros i Hi. apply in_seq in Hi.
    apply Hord. lia. }
  assert (HT0 : 0 <= T) by nia.
  assert (HsumV : Int64.sum (map (fun i => period * Z.of_nat i) I) = period * T).
  { rewrite int64_sum_wrap, sum_map_scale. fold T.
    apply wrap_small. unfold in_int64, int64_min, int64_max. nia. }
  assert (HsumO : Int64.sum (map (fun i => 1000 * Z.of_nat i) I) = 1000 * T).
  { rewrite int64_sum_wrap, sum_map_scale. fold T.
    apply wrap_small. unfold in_int64, int64_min, int64_max. nia. }
  assert (HmX : div_size_t (1000 * T) n = 500 * (Z.of_nat n - 1)).
  { rewrite div_size_t_nonneg by (try lia; split; nia).
    replace (1000 * T) with (500 * (Z.of_nat n - 1) * Z.of_nat n) by lia.
    apply Z.div_mul. lia. }
  assert (HmY : div_size_t (period * T) n = period * (Z.of_nat n - 1) / 2).
  { rewrite div_size_t_nonneg by (try lia; split; nia).
    pose proof (Z.div_mod (period * (Z.of_nat n - 1)) 2 ltac:(lia)) as Hdm.
    pose proof (Z.mod_pos_bound (period * (Z.of_nat n - 1)) 2 ltac:(lia)) as Hmod.
    symmetry. apply (Z.div_unique _ _ _ (period * T
                        - Z.of_nat n * ((period * (Z.of_nat n - 1)) / 2))); [|lia].
    left. nia. }
  unfold regression. rewrite grid_length, Hvs, Hos, HsumV, HsumO, HmX, HmY.
  set (mX := 500 * (Z.of_nat n - 1)).
  set (mY := period * (Z.of_nat n - 1) / 2).
  rewrite !map_map, !zip_with_map_diag.
  set (x := fun i : nat => 1000 * Z.of_nat i - mX).
  set (y := fun i : nat => period * Z.of_nat i - mY).
  set (B := sum (map (fun i => x i * x i) I)).
  assert (Hbottom : Int64.sum (map (fun i => Int64.mul (Int64.sub (1000 * Z.of_nat i) mX)
                                              (Int64.sub (1000 * Z.of_nat i) mX)) I)
                    = Int64.wrap B).
  { apply int64_sum_map. intros i. unfold Int64.mul, Int64.sub, x. eqm_unwrap_all. }
  assert (Htop : Int64.sum (map (fun i => Int64.mul (Int64.sub (period * Z.of_nat i) mY)
                                           (Int64.sub (1000 * Z.of_nat i) mX)) I)
                 = Int64.wrap (sum (map (fun i => y i * x i) I))).
  { apply int64_sum_map. intros i. unfold Int64.mul, Int64.sub, x, y. eqm_unwrap_all. }
  assert (HsumX : sum (map x I) = 0).
  { unfold x. rewrite (sum_map_sub_const (fun i => 1000 * Z.of_nat i)).
    rewrite sum_map_scale. fold T. rewrite HlenI. unfold mX. lia. }
  assert (Hscaled : sum (map (fun i => y i * x i) I) * 1000 = period * B).
  { rewrite Z.mul_comm, <- sum_map_scale.
    rewrite (map_ext _ (fun i => period * (x i * x i) + (period * mX - 1000 * mY) * x i))
      by (intros i; unfold x, y; ring).
    rewrite sum_map_combine, HsumX. fold B. lia. }
  assert (HBpos : 0 < B).
  { unfold B, I. destruct n as [|n]; [lia|]. cbn [List.seq map]. rewrite sum_cons.
    pose proof (sum_squares_nonneg x (List.seq 1 n)).
    unfold x at 1 2. unfold mX. nia. }
  assert (HBmax : B <= 1000000 * (Z.of_nat n * Z.of_nat n * Z.of_nat n)).
  { unfold B.
    pose proof (sum_map_bound (fun i => x i * x i) (1000 * Z.of_nat n * (1000 * Z.of_nat n)) I)
      as Hb.
    rewrite HlenI in Hb. destruct Hb as [_ Hb]; [|lia].
    intros i Hi. apply HinI in Hi.
    assert (- (1000 * Z.of_nat n) <= x i <= 1000 * Z.of_nat n) by (unfold x, mX; lia).
    nia. }
  cbn [bottom top meanTS meanOrdinal fit_anticipatedPeriod fit_intercept].
  unfold fit_anticipatedPeriod, fit_intercept, fit_anticipatedPeriod, kScalingFactor.
  cbn [bottom top meanTS meanOrdinal].
  rewrite Hbottom, Htop.
  assert (HB : Int64.wrap B = B).
  { apply wrap_small. unfold in_int64, int64_min, int64_max. lia. }
  assert (Hnumerator : Int64.mul (Int64.wrap (sum (map (fun i => y i * x i) I))) 1000
                       = period * B).
  { unfold Int64.mul. rewrite wrap_mul_l, Hscaled.
    apply wrap_small. unfold in_int64, int64_min, int64_max. nia. }
  rewrite HB, Hnumerator, Z.mul_comm.
  assert (Hperiod : Int64.quot (B * period) B = period).
  { unfold Int64.quot. rewrite Z.mul_comm, Z.quot_mul by lia.
    apply wrap_small. unfold in_int64, int64_min, int64_max. nia. }
  rewrite Hperiod.
  split; [exact HBpos|]. split; [reflexivity|].
  assert (Hproduct : Int64.mul period mX = period * mX).
  { int64_exact. unfold in_int64, int64_min, int64_max, mX. nia. }
  rewrite Hproduct.
  assert (Hmean : Int64.quot (period * mX) 1000 = mY).
  { rewrite int64_quot_pos by (try lia; unfold in_int64, int64_min, int64_max, mX; nia).
    rewrite Z.quot_div_nonneg by (unfold mX; nia).
    unfold mX, mY.
    replace (period * (500 * (Z.of_nat n - 1))) with (500 * (period * (Z.of_nat n - 1)))
      by lia.
    change 1000 with (500 * 2).
    rewrite Z.div_mul_cancel_l by lia. reflexivity. }
  rewrite Hmean. int64_exact. unfold in_int64, int64_min, int64_max. lia.
Qed.

Section Periodic.

Context {Fps : Type}.
Implicit Types (st : VSyncPredictor Fps).

Lemma grid_S t0 period n :
  grid t0 period (S n) = grid t0 period n ++ [t0 + Z.of_nat n * period].
Proof. unfold grid. rewrite seq_S, map_app. reflexivity. Qed.

Lemma grid_In t0 period n x :
  In x (grid t0 period n) -> exists i, (i < n)%nat /\ x = t0 + Z.of_nat i * period.
Proof.
  unfold grid. intros Hx. apply in_map_iff in Hx as (i & <- & Hi).
  apply in_seq in Hi. exists i. split; [lia | reflexivity].
Qed.

Lemma locked_on_validate t0 period k st :
  0 < period ->
  1 <= kOutlierTolerancePercent st <= kMaxPercent ->
  locked_on t0 period k st ->
  validate st (t0 + Z.of_nat k * period) = true.
Proof.
  intros Hp Htol (Hideal & Hts & _ & Hring & Hlast).
  destruct k as [|k].
  { unfold validate. rewrite Hts. cbn. rewrite orb_true_r. reflexivity. }
  assert (Hne : mTimestamps st <> []).
  { rewrite Hts. intros E. apply (f_equal length) in E. rewrite grid_length in E.
    discriminate. }
  pose proof (ring_has_sample st Hring Hne) as Hs.
  specialize (Hlast ltac:(lia)).
  rewrite validate_has_sample by exact Hs.
  assert (Hres : residualRejects st (t0 + Z.of_nat (S k) * period) = false).
  { apply not_true_is_false. intros Hr.
    apply residualRejects_band in Hr; [|unfold tolerance_ok; lia].
    unfold residualPercent in Hr. rewrite Hlast, Hideal in Hr.
    replace (t0 + Z.of_nat (S k) * period - (t0 + (Z.of_nat (S k) - 1) * period))
      with period in Hr by lia.
    rewrite Z.rem_same in Hr by lia. cbn in Hr. rewrite Z.quot_0_l in Hr by lia. lia. }
  assert (Hdup : duplicateRejects st (t0 + Z.of_nat (S k) * period) = false).
  { apply not_true_is_false. intros Hd.
    apply duplicateRejects_distance in Hd; [|lia].
    destruct (nearestTimestamp_closest st (t0 + Z.of_nat (S k) * period) Hne) as [Hin _].
    rewrite Hts in Hin. apply grid_In in Hin as (i & Hi & Hnear).
    unfold distancePercent in Hd. rewrite Hnear, Hideal in Hd.
    assert (kMaxPercent <= Z.quot (Z.abs (t0 + Z.of_nat i * period
                                          - (t0 + Z.of_nat (S k) * period)) * kMaxPercent)
                                  period).
    { apply Z.quot_le_lower_bound; [lia|]. unfold kMaxPercent. nia. }
    lia. }
  rewrite Hres, Hdup. reflexivity.
Qed.

(** A sample snaps to its own ordinal when the current period is the
    period of the display. *)
Lemma fit_ordinal_own_period period i :
  0 < period -> 0 <= i ->
  period * i + period <= int64_max ->
  kScalingFactor * i <= int64_max ->
  fit_ordinal period (period * i) = kScalingFactor * i.
Proof.
  intros Hp Hi Hv Hki.
  pose proof (Z.quot_rem' period 2) as Hq.
  pose proof (Z.rem_bound_pos period 2 ltac:(lia) ltac:(lia)) as Hr.
  apply fit_ordinal_snaps; try assumption; nia.
Qed.

Lemma locked_on_step t0 period k st :
  0 < period ->
  1 <= kOutlierTolerancePercent st <= kMaxPercent ->
  (2 <= kMinimumSamplesForPrediction st)%nat ->
  (k < kHistorySize st)%nat ->
  kScalingFactor * kScalingFactor * period * Z.of_nat (S k) ^ 3 <= int64_max ->
  locked_on t0 period k st ->
  fst (addVsyncTimestamp st (t0 + Z.of_nat k * period)) = true /\
  locked_on t0 period (S k) (snd (addVsyncTimestamp st (t0 + Z.of_nat k * period))) /\
  constants (snd (addVsyncTimestamp st (t0 + Z.of_nat k * period))) = constants st.
Proof.
  intros Hp Htol Hmin Hroom Hbound Hlocked.
  pose proof (locked_on_validate t0 period k st Hp Htol Hlocked) as Hv.
  destruct Hlocked as (Hideal & Hts & Hentry & Hring & _).
  set (timestamp := t0 + Z.of_nat k * period) in *.
  destruct (insertTimestamp_ring st timestamp Hring) as (Hring1 & Hlast1 & _).
  destruct (insertTimestamp_rateMap st timestamp) as (Hmap1 & Hideal1 & Hmin1 & Htol1).
  pose proof (insertTimestamp_constants st timestamp) as Hconst1.
  assert (Hts1 : mTimestamps (insertTimestamp st timestamp) = grid t0 period (S k)).
  { unfold insertTimestamp. rewrite Hts, grid_length.
    destruct (Nat.eqb_spec k (kHistorySize st)); [lia|].
    cbn [negb set_timestamps mTimestamps]. now rewrite grid_S. }
  assert (Hgoal : forall m,
    RateMap.find period m = Some {| slope := period; intercept := 0 |} ->
    locked_on t0 period (S k) (set_rateMap (insertTimestamp st timestamp) m) /\
    constants (set_rateMap (insertTimestamp st timestamp) m) = constants st).
  { intros m Hm. split; [|exact Hconst1].
    split; [cbn; congruence|]. split; [exact Hts1|]. split; [exact Hm|].
    split; [exact Hring1|]. intros _. unfold aValidTimestamp in *. cbn.
    rewrite Hlast1. unfold timestamp. lia. }
  unfold addVsyncTimestamp. rewrite Hv. cbn [negb].
  set (st1 := insertTimestamp st timestamp) in *.
  rewrite Hts1, grid_length, Hmin1, Hideal1, Hmap1, Htol1, Hideal, Hentry.
  destruct (Nat.ltb_spec (S k) (kMinimumSamplesForPrediction st)) as [Hlearn|Hfit];
    cbn [fst snd].
  - split; [reflexivity|]. apply Hgoal. apply RateMapFacts.find_store.
  - change (slope (deref (Some {| slope := period; intercept := 0 |}))) with period.
    assert (Hord : forall i, (i < S k)%nat ->
              fit_ordinal period (period * Z.of_nat i) = kScalingFactor * Z.of_nat i).
    { intros i Hi. unfold kScalingFactor, int64_max in *.
      replace (Z.of_nat (S k) ^ 3)
        with (Z.of_nat (S k) * Z.of_nat (S k) * Z.of_nat (S k)) in Hbound by ring.
      assert (4 <= Z.of_nat (S k) * Z.of_nat (S k)) by nia.
      assert (Z.of_nat (S k) * 4 <= Z.of_nat (S k) * Z.of_nat (S k) * Z.of_nat (S k)) by nia.
      apply fit_ordinal_own_period; unfold kScalingFactor, int64_max; nia. }
    destruct (regression_on_grid t0 period period (S k) Hp ltac:(lia) Hord Hbound)
      as (Hbottom & Hslope & Hintercept).
    set (r := regression (grid t0 period (S k)) period) in *.
    destruct (Z.eqb_spec (bottom r) 0) as [|_]; [lia|].
    assert (Hpct : fit_percent r period = 0).
    { unfold fit_percent. rewrite Hslope. unfold Int64.sub. rewrite Z.sub_diag.
      assert (Int64.mul (Int64.abs (Int64.wrap 0)) kMaxPercent = 0) as ->
        by (vm_compute; reflexivity).
      unfold Int64.quot. rewrite Z.quot_0_l by lia. apply wrap_0. }
    rewrite Hpct. cbn [to_size_t Z.ltb Z.compare].
    destruct (Z.leb_spec (kOutlierTolerancePercent st) 0); [lia|]. cbn [fst snd].
    split; [reflexivity|]. rewrite Hslope, Hintercept.
    unfold commitModel. rewrite Hideal1, Hmap1, Hideal. apply Hgoal.
    apply RateMapFacts.find_assign. rewrite Hentry. eauto.
Qed.

Lemma feed_app st l l' : feed st (l ++ l') = feed (feed st l) l'.
Proof. unfold feed. apply fold_left_app. Qed.

Lemma feed_results_app l : forall st l',
  feed_results st (l ++ l') = feed_results st l ++ feed_results (feed st l) l'.
Proof.
  induction l as [|t l IH]; intros st l'; [reflexivity|].
  cbn [app feed_results]. rewrite IH. reflexivity.
Qed.

Lemma construct_locked_on t0 period historySize minimumSamples tolerance :
  (0 < historySize)%nat ->
  locked_on t0 period 0
    (construct (Fps := Fps) period historySize minimumSamples tolerance).
Proof.
  intros Hcap. split; [reflexivity|]. split; [reflexivity|]. split.
  - cbn. rewrite Z.eqb_refl. reflexivity.
  - split; [apply construct_ring; exact Hcap | lia].
Qed.

Lemma periodic_feed t0 period historySize minimumSamples tolerance n :
  0 < period ->
  1 <= tolerance <= kMaxPercent ->
  (2 <= minimumSamples)%nat ->
  (0 < historySize)%nat ->
  (n <= historySize)%nat ->
  kScalingFactor * kScalingFactor * period * Z.of_nat n ^ 3 <= int64_max ->
  let st0 := construct (Fps := Fps) period historySize minimumSamples tolerance in
  feed_results st0 (grid t0 period n) = repeat true n /\
  locked_on t0 period n (feed st0 (grid t0 period n)) /\
  constants (feed st0 (grid t0 period n)) = constants st0.
Proof.
  intros Hp Htol Hmin Hcap. cbn zeta.
  induction n as [|n IH]; intros Hn Hbound.
  - split; [reflexivity|]. split; [|reflexivity].
    apply construct_locked_on. lia.
  - assert (Hmono : Z.of_nat n ^ 3 <= Z.of_nat (S n) ^ 3).
    { apply Z.pow_le_mono_l. lia. }
    destruct IH as (Hres & Hlocked & Hconst); [lia | unfold kScalingFactor in *; nia |].
    set (st0 := construct period historySize minimumSamples tolerance) in *.
    set (st := feed st0 (grid t0 period n)) in *.
    assert (Hc : constants st = (historySize, minimumSamples, tolerance)).
    { rewrite Hconst. unfold constants, st0.
      change (kOutlierTolerancePercent (construct period historySize minimumSamples tolerance))
        with (Z.min tolerance kMaxPercent).
      rewrite Z.min_l by lia. reflexivity. }
    unfold constants in Hc. injection Hc as Hh Hm Ht.
    destruct (locked_on_step t0 period n st Hp) as (Hres1 & Hlocked1 & Hconst1);
      try (rewrite ?Hh, ?Hm, ?Ht; lia); [exact Hlocked|].
    rewrite grid_S, feed_results_app, feed_app. fold st.
    cbn [feed_results feed fold_left]. rewrite Hres, Hres1.
    split; [|split].
    + rewrite <- repeat_cons. reflexivity.
    + exact Hlocked1.
    + rewrite Hconst1. exact Hconst.
Qed.

End Periodic.

Section SteadyDisplay.

Context {Fps : Type}.
Implicit Types (st : VSyncPredictor Fps).

(** X7.  The regression of lines 156-205 on a steady display.  For [n >= 2]
    samples spaced exactly [period] apart, in order, such that
    [10^6 * period * n^3] fits in 64 bits, and a current period against which
    the drift accumulated over the window,
    [(n - 1) * |period - currentPeriod|], stays below half the current
    period, the 64-bit computation yields a positive denominator, exactly
    [period] as the fitted slope and 0 as the fitted intercept. *)
Theorem regression_recovers_exact_period t0 period currentPeriod n :
  0 < period ->
  0 < currentPeriod ->
  (2 <= n)%nat ->
  (Z.of_nat n - 1) * Z.abs (period - currentPeriod) < Z.quot currentPeriod 2 ->
  kScalingFactor * kScalingFactor * period * Z.of_nat n ^ 3 <= int64_max ->
  let r := regression (grid t0 period n) currentPeriod in
  0 < bottom r /\
  fit_anticipatedPeriod r = period /\
  fit_intercept r = 0.
Proof.
  intros Hp Hcp Hn Hdrift Hbound.
  apply regression_on_grid; try assumption.
  intros i Hi.
  pose proof (Z.quot_rem' currentPeriod 2) as Hq.
  pose proof (Z.rem_bound_pos currentPeriod 2 ltac:(lia) ltac:(lia)) as Hr.
  unfold kScalingFactor, int64_max in *.
  replace (Z.of_nat n ^ 3) with (Z.of_nat n * Z.of_nat n * Z.of_nat n) in Hbound by ring.
  assert (4 <= Z.of_nat n * Z.of_nat n) by nia.
  assert (Z.of_nat n * 4 <= Z.of_nat n * Z.of_nat n * Z.of_nat n) by nia.
  set (h := Z.quot currentPeriod 2) in *.
  assert (Hd : Z.abs (period - currentPeriod) < h) by nia.
  assert (Hdi : Z.of_nat i * Z.abs (period - currentPeriod) < h) by nia.
  apply fit_ordinal_snaps; unfold kScalingFactor, int64_max; try lia; try nia.
Qed.

(** X8.  A steady display is learnt at once.  Feed a fresh predictor whose
    ideal period is [period] (tolerance 1..100, at least 2 samples to
    predict) the timestamps [t0, t0 + period, ...], no more than the history
    holds and such that [10^6 * period * n^3] fits in 64 bits: every
    [addVsyncTimestamp] returns true, the buffer holds exactly these samples
    and the model of the active period is [{period, 0}].  From the first
    sample on, the prediction after a time point is the grid point
    [t0 + ((timePoint - t0 + period) / period) * period], as long as
    [timePoint - t0 + period] and [timePoint + 2 * period] are
    representable. *)
Theorem periodic_samples_converge
    t0 period historySize minimumSamples tolerance n :
  0 < period ->
  1 <= tolerance <= kMaxPercent ->
  (2 <= minimumSamples)%nat ->
  (0 < historySize)%nat ->
  (n <= historySize)%nat ->
  kScalingFactor * kScalingFactor * period * Z.of_nat n ^ 3 <= int64_max ->
  let st0 := construct (Fps := Fps) period historySize minimumSamples tolerance in
  let st := feed st0 (grid t0 period n) in
  feed_results st0 (grid t0 period n) = repeat true n /\
  mTimestamps st = grid t0 period n /\
  getVSyncPredictionModel st = {| slope := period; intercept := 0 |} /\
  needsMoreSamples st = (n <? minimumSamples)%nat /\
  ((0 < n)%nat ->
   forall timePoint,
     in_int64 timePoint ->
     in_int64 (timePoint - t0 + period) ->
     timePoint + 2 * period <= int64_max ->
     nextAnticipatedVSyncTimeFromLocked st timePoint
       = Some (t0 + Z.quot (timePoint - t0 + period) period * period)).
Proof.
  intros Hp Htol Hmin Hcap Hn Hbound. cbn zeta.
  destruct (periodic_feed (Fps := Fps) t0 period historySize minimumSamples tolerance n
              Hp Htol Hmin Hcap Hn Hbound) as (Hres & Hlocked & Hconst).
  set (st := feed (construct period historySize minimumSamples tolerance)
               (grid t0 period n)) in *.
  destruct Hlocked as (Hideal & Hts & Hentry & _ & _).
  assert (Hmodel : getVSyncPredictionModelLocked st = {| slope := period; intercept := 0 |}).
  { unfold getVSyncPredictionModelLocked. rewrite Hideal, Hentry. reflexivity. }
  split; [exact Hres|]. split; [exact Hts|]. split.
  { unfold getVSyncPredictionModel. rewrite Hmodel. reflexivity. }
  split.
  { unfold needsMoreSamples. rewrite Hts, grid_length.
    unfold constants in Hconst. injection Hconst as _ -> _. reflexivity. }
  intros Hpos timePoint Htp Hnum Hmax.
  assert (Hwarm : warm st).
  { split; [|rewrite Hmodel; exact Hp].
    rewrite Hts. intros E. apply (f_equal length) in E. rewrite grid_length in E.
    cbn in E. lia. }
  assert (Hzero : zeroPoint st = t0).
  { unfold zeroPoint. rewrite Hmodel, Hts, grid_min by lia. cbn [intercept]. lia. }
  pose proof (ordinal_request_after (timePoint - t0) period Hp) as Hafter.
  pose proof (ordinal_request_upper (timePoint - t0) period Hp) as [Hupper _].
  destruct (warm_prediction st timePoint Hwarm) as [Heq _].
  - rewrite Hzero, Hmodel. exact Hnum.
  - unfold vsyncAt. rewrite Hzero, Hmodel. cbn [slope].
    unfold in_int64, int64_min, int64_max in *. lia.
  - rewrite Heq. unfold vsyncAt. rewrite Hzero, Hmodel. reflexivity.
Qed.

End SteadyDisplay.

(** ** The cache of models *)

Lemma find_store_ne k k' v m :
  k <> k' -> RateMap.find k' (RateMap.store k v m) = RateMap.find k' m.
Proof.
  intros Hne. unfold RateMap.store. destruct (RateMap.find k m).
  - now apply RateMapFacts.find_assign_ne.
  - rewrite RateMapFacts.find_app. destruct (RateMap.find k' m); [reflexivity|].
    cbn. destruct (Z.eqb_spec k k'); [contradiction | reflexivity].
Qed.

Lemma find_erase_ne k k' m :
  k <> k' -> RateMap.find k' (RateMap.erase k m) = RateMap.find k' m.
Proof.
  intros Hne. induction m as [|[k0 v0] m IH]; cbn; [reflexivity|].
  destruct (Z.eqb_spec k0 k) as [->|]; cbn.
  - destruct (Z.eqb_spec k k'); [contradiction | reflexivity].
  - destruct (k0 =? k'); auto.
Qed.

Section CacheProperties.

Context {Fps : Type}.
Variable begin_key : RateMap.t -> option nsecs_t.
Implicit Types (st : VSyncPredictor Fps) (timestamp period : nsecs_t).

(** X9.  [addVsyncTimestamp] learns about the active period only: whatever
    the sample and the outcome, the models cached for every other nominal
    period, the active period itself, the render rate, the cached vsync
    sequence and the three constants are left as they were. *)
Theorem addVsyncTimestamp_touches_active_period_only st timestamp :
  let st' := snd (addVsyncTimestamp st timestamp) in
  (forall k, k <> mIdealPeriod st ->
     RateMap.find k (mRateMap st') = RateMap.find k (mRateMap st)) /\
  mIdealPeriod st' = mIdealPeriod st /\
  mRenderRate st' = mRenderRate st /\
  mLastVsyncSequence st' = mLastVsyncSequence st /\
  constants st' = constants st.
Proof.
  cbn zeta.
  assert (Hclear : forall s : VSyncPredictor Fps,
            mRenderRate (clearTimestamps s) = mRenderRate s /\
            mLastVsyncSequence (clearTimestamps s) = mLastVsyncSequence s).
  { intros s. unfold clearTimestamps. destruct (mTimestamps s); [auto|].
    destruct (mKnownTimestamp s); auto. }
  assert (Hins : mRenderRate (insertTimestamp st timestamp) = mRenderRate st /\
                 mLastVsyncSequence (insertTimestamp st timestamp) = mLastVsyncSequence st).
  { unfold insertTimestamp. destruct (negb _); auto. }
  destruct (insertTimestamp_rateMap st timestamp) as (Hmap & Hideal & _ & _).
  split; [|split; [|split; [|split; [|apply addVsyncTimestamp_constants]]]].
  - intros k Hk. unfold addVsyncTimestamp.
    destruct (validate st timestamp); cbn [negb].
    + destruct (_ <? _)%nat; cbn [snd].
      { cbn. rewrite Hideal, Hmap. apply find_store_ne. congruence. }
      destruct (bottom _ =? 0); cbn [snd];
        [rewrite clearTimestamps_rateMap; cbn; rewrite Hideal, Hmap;
         apply RateMapFacts.find_assign_ne; congruence|].
      destruct (_ <=? _); cbn [snd];
        [rewrite clearTimestamps_rateMap|]; cbn; rewrite Hideal, Hmap;
        apply RateMapFacts.find_assign_ne; congruence.
    + destruct (_ <? _)%nat; cbn [snd]; [now rewrite clearTimestamps_rateMap|].
      destruct (negb _); reflexivity.
  - unfold addVsyncTimestamp.
    destruct (validate st timestamp); cbn [negb].
    + destruct (_ <? _)%nat; cbn [snd]; [exact Hideal|].
      destruct (bottom _ =? 0); cbn [snd];
        [rewrite clearTimestamps_idealPeriod; exact Hideal|].
      destruct (_ <=? _); cbn [snd];
        [rewrite clearTimestamps_idealPeriod|]; exact Hideal.
    + destruct (_ <? _)%nat; cbn [snd]; [now rewrite clearTimestamps_idealPeriod|].
      destruct (negb _); reflexivity.
  - unfold addVsyncTimestamp.
    destruct (validate st timestamp); cbn [negb].
    + destruct (_ <? _)%nat; cbn [snd]; [apply Hins|].
      destruct (bottom _ =? 0); cbn [snd];
        [rewrite (proj1 (Hclear _)); apply Hins|].
      destruct (_ <=? _); cbn [snd];
        [rewrite (proj1 (Hclear _))|]; apply Hins.
    + destruct (_ <? _)%nat; cbn [snd]; [now rewrite (proj1 (Hclear _))|].
      destruct (negb _); reflexivity.
  - unfold addVsyncTimestamp.
    destruct (validate st timestamp); cbn [negb].
    + destruct (_ <? _)%nat; cbn [snd]; [apply Hins|].
      destruct (bottom _ =? 0); cbn [snd];
        [rewrite (proj2 (Hclear _)); apply Hins|].
      destruct (_ <=? _); cbn [snd];
        [rewrite (proj2 (Hclear _))|]; apply Hins.
    + destruct (_ <? _)%nat; cbn [snd]; [now rewrite (proj2 (Hclear _))|].
      destruct (negb _); reflexivity.
Qed.

(** X10.  Switching back to a display mode does not require relearning.
    When [setPeriod] does not evict the entry of [period] (the map is not
    full, or [begin()] designates another entry), a model cached for
    [period] becomes the active model as it is; when no entry for [period]
    is cached, the active model is the trivial [{period, 0}].  In both cases
    [period] is the active ideal period afterwards. *)
Theorem setPeriod_restores_cached_model st period :
  (RateMap.size (mRateMap st) <> kSizeLimit \/
   exists k0, begin_key (mRateMap st) = Some k0 /\ k0 <> period) ->
  mIdealPeriod (setPeriod begin_key st period) = period /\
  (forall v, RateMap.find period (mRateMap st) = Some v ->
     getVSyncPredictionModel (setPeriod begin_key st period)
       = {| slope := slope v; intercept := intercept v |}) /\
  (RateMap.find period (mRateMap st) = None ->
     getVSyncPredictionModel (setPeriod begin_key st period)
       = {| slope := period; intercept := 0 |}).
Proof.
  intros Hkeep.
  pose proof (setPeriod_rateMap begin_key st period) as Hmap. cbn zeta in Hmap.
  set (m := if (RateMap.size (mRateMap st) =? kSizeLimit)%nat then _ else _) in Hmap.
  assert (Hm : RateMap.find period m = RateMap.find period (mRateMap st)).
  { subst m. destruct Hkeep as [Hsize|(k0 & Hk0 & Hne)].
    - destruct (Nat.eqb_spec (RateMap.size (mRateMap st)) kSizeLimit); [contradiction|].
      reflexivity.
    - destruct (_ =? _)%nat; [|reflexivity]. rewrite Hk0. now apply find_erase_ne. }
  split; [apply setPeriod_idealPeriod|].
  unfold getVSyncPredictionModel, getVSyncPredictionModelLocked.
  rewrite setPeriod_idealPeriod, Hmap, Hm. split.
  - intros v Hv. rewrite Hv, Hm, Hv. reflexivity.
  - intros Hnone. rewrite Hnone, RateMapFacts.find_app, Hm, Hnone. cbn.
    rewrite Z.eqb_refl. reflexivity.
Qed.

(** X11.  [resetModel] forgets the fit of the active period and nothing
    else: afterwards the active model is the trivial [{idealPeriod, 0}], the
    buffer is empty, the models cached for other periods and the active
    period are unchanged, and a non-empty buffer has left its largest sample
    in the known timestamp. *)
Theorem resetModel_forgets_active_fit_only st :
  getVSyncPredictionModel (resetModel st) = {| slope := mIdealPeriod st; intercept := 0 |} /\
  mTimestamps (resetModel st) = [] /\
  mIdealPeriod (resetModel st) = mIdealPeriod st /\
  (forall k, k <> mIdealPeriod st ->
     RateMap.find k (mRateMap (resetModel st)) = RateMap.find k (mRateMap st)) /\
  (mTimestamps st = [] -> mKnownTimestamp (resetModel st) = mKnownTimestamp st) /\
  (mTimestamps st <> [] ->
   exists maxRb,
     is_maximum maxRb (mTimestamps st) /\
     mKnownTimestamp (resetModel st) =
       Some (match mKnownTimestamp st with
             | Some known => Z.max known maxRb
             | None => maxRb
             end)).
Proof.
  unfold resetModel.
  set (st1 := set_rateMap st _).
  split; [|split; [|split; [|split; [|split]]]].
  - unfold getVSyncPredictionModel. rewrite clearTimestamps_model.
    unfold getVSyncPredictionModelLocked, st1. cbn [set_rateMap mIdealPeriod mRateMap].
    rewrite RateMapFacts.find_store. reflexivity.
  - apply clearTimestamps_timestamps.
  - now rewrite clearTimestamps_idealPeriod.
  - intros k Hk. rewrite clearTimestamps_rateMap. unfold st1. cbn.
    apply find_store_ne. congruence.
  - intros Hts. rewrite clearTimestamps_empty by exact Hts. reflexivity.
  - intros Hne. exact (clearTimestamps_known st1 Hne).
Qed.

End CacheProperties.

(** ** Predictions *)

Section Predictions.

Context {Fps : Type}.
Variable getFrameRateDivisor : nsecs_t -> Fps -> Z.
Variable round_ratio : nsecs_t -> nsecs_t -> Z.
Implicit Types (st : VSyncPredictor Fps) (timePoint : nsecs_t).

(** Lines 240-242 where nothing overflows. *)
Lemma cold_prediction st timePoint :
  mTimestamps st = [] ->
  0 < mIdealPeriod st ->
  let knownTimestamp := default timePoint (mKnownTimestamp st) in
  let numPeriodsOut := Z.quot (timePoint - knownTimestamp) (mIdealPeriod st) + 1 in
  let prediction := knownTimestamp + numPeriodsOut * mIdealPeriod st in
  in_int64 (timePoint - knownTimestamp) ->
  in_int64 prediction ->
  nextAnticipatedVSyncTimeFromLocked st timePoint = Some prediction.
Proof.
  intros Hts Hp. cbn zeta.
  set (known := default timePoint (mKnownTimestamp st)).
  set (p := mIdealPeriod st) in *.
  intros Hdiff Hpred.
  unfold nextAnticipatedVSyncTimeFromLocked. rewrite Hts. fold known p. f_equal.
  assert (Int64.sub timePoint known = timePoint - known) as ->
    by (int64_exact; exact Hdiff).
  rewrite int64_quot_pos by assumption.
  int64_exact. exact Hpred.
Qed.

(** X12.  The cold path of lines 238-243.  With an empty buffer and a
    positive ideal period, for a time point whose difference to the known
    timestamp and whose prediction are representable, the prediction is the
    known timestamp (or, when none is known, the time point itself) plus a
    whole number of ideal periods, and it is strictly later than the time
    point.  From the known timestamp on it is the first such point after the
    time point; for a time point before the known timestamp it lies between
    one and two periods after the time point.  With no known timestamp it is
    the time point plus one period. *)
Theorem cold_prediction_is_next_period_after st timePoint :
  mTimestamps st = [] ->
  0 < mIdealPeriod st ->
  let knownTimestamp := default timePoint (mKnownTimestamp st) in
  let numPeriodsOut := Z.quot (timePoint - knownTimestamp) (mIdealPeriod st) + 1 in
  let prediction := knownTimestamp + numPeriodsOut * mIdealPeriod st in
  in_int64 (timePoint - knownTimestamp) ->
  in_int64 prediction ->
  nextAnticipatedVSyncTimeFromLocked st timePoint = Some prediction /\
  timePoint < prediction /\
  (knownTimestamp <= timePoint ->
   1 <= numPeriodsOut /\ prediction <= timePoint + mIdealPeriod st) /\
  (timePoint < knownTimestamp ->
   numPeriodsOut <= 1 /\
   timePoint + mIdealPeriod st <= prediction < timePoint + 2 * mIdealPeriod st) /\
  (mKnownTimestamp st = None -> prediction = timePoint + mIdealPeriod st).
Proof.
  intros Hts Hp. cbn zeta.
  set (known := default timePoint (mKnownTimestamp st)).
  set (p := mIdealPeriod st) in *.
  intros Hdiff Hpred.
  pose proof (Z.quot_rem' (timePoint - known) p) as Hq.
  pose proof (cold_prediction st timePoint Hts Hp Hdiff Hpred) as Hcode.
  cbn zeta in Hcode. fold known p in Hcode.
  set (q := Z.quot (timePoint - known) p) in *.
  set (r := Z.rem (timePoint - known) p) in *.
  assert (Hpos : 0 <= timePoint - known -> 0 <= r < p /\ 0 <= q).
  { intros Hnn. split; [apply Z.rem_bound_pos; lia | apply Z.quot_pos; lia]. }
  assert (Hneg : timePoint - known < 0 -> - p < r <= 0 /\ q <= 0).
  { intros Hlt.
    pose proof (Z.rem_bound_abs (timePoint - known) p ltac:(lia)).
    pose proof (Z.rem_nonpos (timePoint - known) p ltac:(lia) ltac:(lia)).
    fold r in H, H0. split; [lia | nia]. }
  split; [exact Hcode|]. split; [|split; [|split]].
  - destruct (Z_lt_le_dec (timePoint - known) 0) as [Hlt|Hge];
      [destruct (Hneg Hlt) | destruct (Hpos Hge)]; nia.
  - intros Hle. destruct (Hpos ltac:(lia)). split; nia.
  - intros Hlt. destruct (Hneg ltac:(lia)). split; [lia | nia].
  - intros Hnone. subst q known. rewrite Hnone. cbn [default from_option].
    rewrite Z.sub_diag. cbn. rewrite Z.quot_0_l by lia. lia.
Qed.

(** X13.  The practical range.  With the time point and the anchor (the
    known timestamp on the cold path, the oldest sample and the intercept on
    the warm path) within 2^60 ns of the epoch, about 36 years, and a
    positive period of at most 2^60 ns, nothing overflows on either path of
    [nextAnticipatedVSyncTimeFromLocked]: the fatal branch is not taken and
    the result is the exact value, later than the time point by at most two
    periods. *)
Theorem prediction_is_exact_in_practical_range st timePoint :
  Z.abs timePoint <= 2 ^ 60 ->
  (mTimestamps st = [] ->
   0 < mIdealPeriod st <= 2 ^ 60 ->
   Z.abs (default timePoint (mKnownTimestamp st)) <= 2 ^ 60 ->
   let knownTimestamp := default timePoint (mKnownTimestamp st) in
   let numPeriodsOut := Z.quot (timePoint - knownTimestamp) (mIdealPeriod st) + 1 in
   let prediction := knownTimestamp + numPeriodsOut * mIdealPeriod st in
   nextAnticipatedVSyncTimeFromLocked st timePoint = Some prediction /\
   timePoint < prediction < timePoint + 2 * mIdealPeriod st) /\
  (warm st ->
   slope (getVSyncPredictionModelLocked st) <= 2 ^ 60 ->
   Z.abs (min_element (mTimestamps st)) <= 2 ^ 60 ->
   Z.abs (intercept (getVSyncPredictionModelLocked st)) <= 2 ^ 60 ->
   let slope := slope (getVSyncPredictionModelLocked st) in
   let ordinalRequest := Z.quot (timePoint - zeroPoint st + slope) slope in
   nextAnticipatedVSyncTimeFromLocked st timePoint = Some (vsyncAt st ordinalRequest) /\
   timePoint < vsyncAt st ordinalRequest < timePoint + 2 * slope).
Proof.
  intros Htp. change (2 ^ 60) with 1152921504606846976 in *. split.
  - intros Hts Hp Hknown. cbn zeta.
    set (known := default timePoint (mKnownTimestamp st)) in *.
    set (p := mIdealPeriod st) in *.
    assert (Hp0 : 0 < p) by lia.
    pose proof (ordinal_request_after (timePoint - known - p) p Hp0) as Hafter.
    pose proof (ordinal_request_upper (timePoint - known - p) p Hp0) as [Hupper _].
    replace (timePoint - known - p + p) with (timePoint - known) in * by lia.
    pose proof (Z.quot_rem' (timePoint - known) p) as Hq.
    split; [|lia].
    apply (cold_prediction st timePoint Hts Hp0).
    + unfold in_int64, int64_min, int64_max. fold known.
      change (2 ^ 63) with 9223372036854775808. lia.
    + unfold in_int64, int64_min, int64_max. fold known p.
      change (2 ^ 63) with 9223372036854775808. lia.
  - intros Hwarm Hslope Hold Hint. cbn zeta.
    assert (Hpos : 0 < slope (getVSyncPredictionModelLocked st)) by apply Hwarm.
    pose proof (ordinal_request_after (timePoint - zeroPoint st) _ Hpos) as Hafter.
    pose proof (ordinal_request_upper (timePoint - zeroPoint st) _ Hpos) as [Hupper _].
    destruct (warm_prediction st timePoint Hwarm) as [Heq Hlt].
    + unfold in_int64, int64_min, int64_max, zeroPoint.
      change (2 ^ 63) with 9223372036854775808. lia.
    + unfold in_int64, int64_min, int64_max, vsyncAt, zeroPoint in *.
      change (2 ^ 63) with 9223372036854775808. lia.
    + split; [exact Heq|]. unfold vsyncAt in *. lia.
Qed.

Lemma set_rateMap_same st : set_rateMap st (mRateMap st) = st.
Proof. destruct st; reflexivity. Qed.

(** X14.  The queries do not disturb what has been learnt.  Under the rate
    map invariant [isVSyncInPhase] returns the state it was given (the
    [mRateMap[mIdealPeriod]] of line 327 finds its entry and inserts
    nothing, and the cached sequence is not updated), and it answers true
    without predicting when the divisor, converted to [unsigned], is at most
    1 or the time point is 0.  [nextAnticipatedVSyncTimeFrom] changes
    nothing but the cached vsync sequence, which becomes the one
    [getVsyncSequenceLocked] computes for the time point. *)
Theorem queries_leave_the_model_alone st timePoint frameRate :
  rate_map_invariant st ->
  (forall res st',
      isVSyncInPhase getFrameRateDivisor round_ratio st timePoint frameRate = Some (res, st') ->
      st' = st) /\
  (getFrameRateDivisor (mIdealPeriod st) frameRate mod 2 ^ 32 <= 1 \/ timePoint = 0 ->
   isVSyncInPhase getFrameRateDivisor round_ratio st timePoint frameRate = Some (true, st)) /\
  (forall vsync st',
      nextAnticipatedVSyncTimeFrom getFrameRateDivisor round_ratio st timePoint
        = Some (vsync, st') ->
      exists last,
        getVsyncSequenceLocked round_ratio st timePoint = Some last /\
        st' = set_lastVsyncSequence st (Some last)).
Proof.
  intros Hinv. split; [|split].
  - intros res st' Hphase.
    destruct (isVSyncInPhase_state _ _ _ _ _ _ _ Hinv Hphase) as [Hm _].
    apply isVSyncInPhase_frame in Hphase as [->|[m ->]]; [reflexivity|].
    cbn in Hm. subst m. apply set_rateMap_same.
  - intros Htrivial. unfold isVSyncInPhase, isVSyncInPhaseLocked.
    assert (Hguard : (getFrameRateDivisor (mIdealPeriod st) frameRate mod 2 ^ 32 <=? 1)
                       || (timePoint =? 0) = true).
    { apply orb_true_iff. destruct Htrivial as [Hd| ->];
        [left; apply Z.leb_le; exact Hd | right; reflexivity]. }
    rewrite Hguard. reflexivity.
  - intros vsync st'. unfold nextAnticipatedVSyncTimeFrom.
    destruct (getVsyncSequenceLocked round_ratio st timePoint) as [last|]; [|discriminate].
    destruct (_ =? 0).
    + intros [= _ <-]. eauto.
    + destruct (nextAnticipatedVSyncTimeFromLocked _ _); [|discriminate].
      intros [= _ <-]. eauto.
Qed.

End Predictions.

(** ** The render rate *)

Section RenderRate.

Context {Fps : Type}.
Variable getFrameRateDivisor : nsecs_t -> Fps -> Z.
Variable round_ratio : nsecs_t -> nsecs_t -> Z.
Implicit Types (st : VSyncPredictor Fps) (timePoint : nsecs_t).

Lemma sequence_vsync st timePoint last :
  getVsyncSequenceLocked round_ratio st timePoint = Some last ->
  nextAnticipatedVSyncTimeFromLocked st timePoint = Some (vsyncTime last).
Proof.
  unfold getVsyncSequenceLocked.
  destruct (nextAnticipatedVSyncTimeFromLocked st timePoint) as [vsync|]; [|discriminate].
  destruct (mLastVsyncSequence st); intros [= <-]; reflexivity.
Qed.

(** The phase of lines 277-289 completes the sequence number to a multiple
    of the divisor. *)
Lemma renderRatePhase_aligns st last renderRate :
  mRenderRate st = Some renderRate ->
  1 < getFrameRateDivisor (mIdealPeriod st) renderRate <= 2 ^ 30 ->
  let divisor := getFrameRateDivisor (mIdealPeriod st) renderRate in
  let phase := renderRatePhase getFrameRateDivisor st last in
  0 <= phase < 2 * divisor /\
  (0 <= seq last -> phase < divisor) /\
  Z.rem (seq last + phase) divisor = 0 /\
  (phase = 0 <-> Z.rem (seq last) divisor = 0).
Proof.
  intros Hrate Hdiv. cbn zeta. unfold renderRatePhase. rewrite Hrate.
  set (divisor := getFrameRateDivisor (mIdealPeriod st) renderRate) in *.
  destruct (Z.leb_spec divisor 1); [lia|].
  pose proof (Z.quot_rem' (seq last) divisor) as Hq.
  pose proof (Z.rem_bound_abs (seq last) divisor ltac:(lia)) as Hr.
  change (2 ^ 30) with 1073741824 in Hdiv.
  rewrite (to_int_small (Z.rem (seq last) divisor))
    by (change (2 ^ 31) with 2147483648; lia).
  destruct (Z.eqb_spec (Z.rem (seq last) divisor) 0) as [Hz|Hnz].
  - rewrite Z.add_0_r. repeat split; (lia || assumption).
  - rewrite to_int_small by (change (2 ^ 31) with 2147483648; lia).
    split; [lia|]. split; [|split].
    + intros Hnn. pose proof (Z.rem_nonneg (seq last) divisor ltac:(lia) Hnn). lia.
    + replace (seq last + (divisor - Z.rem (seq last) divisor))
        with ((Z.quot (seq last) divisor + 1) * divisor) by lia.
      apply Z.rem_mul. lia.
    + split; intros; lia.
Qed.

(** X15.  Rendering below the refresh rate.  With a render rate whose
    divisor is above 1 (and at most 2^30), on the warm path with a slope of
    at least 2 ns, a time point not earlier than one period before the zero
    point, and everything in the practical range (time point and zero point
    within 2^60 ns of the epoch, [2 * divisor + 2] periods at most 2^60 ns),
    [nextAnticipatedVSyncTimeFrom] returns the plain prediction moved on by
    [phase] whole periods, where [phase] (at least 0, below twice the divisor,
    and 0 exactly when the sequence number already is a multiple) completes
    the sequence number of the plain prediction to a multiple of the divisor;
    the plain prediction and its sequence number are cached. *)
Theorem render_rate_skip_lands_on_aligned_vsync st timePoint renderRate last :
  warm st ->
  2 <= slope (getVSyncPredictionModelLocked st) ->
  zeroPoint st - slope (getVSyncPredictionModelLocked st) <= timePoint ->
  mRenderRate st = Some renderRate ->
  1 < getFrameRateDivisor (mIdealPeriod st) renderRate <= 2 ^ 30 ->
  Z.abs timePoint <= 2 ^ 60 ->
  Z.abs (zeroPoint st) <= 2 ^ 60 ->
  (2 * getFrameRateDivisor (mIdealPeriod st) renderRate + 2)
    * slope (getVSyncPredictionModelLocked st) <= 2 ^ 60 ->
  getVsyncSequenceLocked round_ratio st timePoint = Some last ->
  let divisor := getFrameRateDivisor (mIdealPeriod st) renderRate in
  exists phase,
    nextAnticipatedVSyncTimeFrom getFrameRateDivisor round_ratio st timePoint
      = Some (vsyncTime last + phase * slope (getVSyncPredictionModelLocked st),
              set_lastVsyncSequence st (Some last)) /\
    0 <= phase < 2 * divisor /\
    Z.rem (seq last + phase) divisor = 0 /\
    (phase = 0 <-> Z.rem (seq last) divisor = 0).
Proof.
  intros Hwarm Hslope Hfrom Hrate Hdiv Htp Hzero Hskip Hseq. cbn zeta.
  set (st1 := set_lastVsyncSequence st (Some last)).
  exists (renderRatePhase getFrameRateDivisor st1 last).
  destruct (renderRatePhase_aligns st1 last renderRate Hrate Hdiv)
    as (Hrange & _ & Halign & Hzerophase). cbn zeta in *.
  set (phase := renderRatePhase getFrameRateDivisor st1 last) in *.
  split; [|split; [exact Hrange | split; [exact Halign | exact Hzerophase]]].
  change (mIdealPeriod st1) with (mIdealPeriod st) in *.
  set (divisor := getFrameRateDivisor (mIdealPeriod st) renderRate) in *.
  set (s := slope (getVSyncPredictionModelLocked st)) in *.
  assert (Hs : 0 < s) by lia.
  change (2 ^ 60) with 1152921504606846976 in *.
  change (2 ^ 30) with 1073741824 in *.
  assert (Hphase_s : 0 <= phase * s <= 2 * divisor * s) by nia.
  pose proof (ordinal_request_after (timePoint - zeroPoint st) s Hs) as Hafter.
  pose proof (ordinal_request_upper (timePoint - zeroPoint st) s Hs) as [_ Hupper].
  specialize (Hupper ltac:(lia)).
  pose proof (sequence_vsync st timePoint last Hseq) as Hvsync.
  destruct (warm_prediction st timePoint Hwarm) as [Heq _].
  { fold s. unfold in_int64, int64_min, int64_max.
    change (2 ^ 63) with 9223372036854775808. lia. }
  { fold s. unfold vsyncAt, in_int64, int64_min, int64_max. fold s.
    change (2 ^ 63) with 9223372036854775808. lia. }
  cbn zeta in Heq. fold s in Heq.
  rewrite Heq in Hvsync. injection Hvsync as Hvsync.
  unfold vsyncAt in Hvsync. fold s in Hvsync.
  set (q0 := Z.quot (timePoint - zeroPoint st + s) s) in *.
  assert (Hq0 : 0 <= q0) by (apply Z.quot_pos; lia).
  unfold nextAnticipatedVSyncTimeFrom. rewrite Hseq. fold st1. fold phase.
  destruct (Z.eqb_spec phase 0) as [Hz|Hnz].
  { rewrite Hz, Z.mul_0_l, Z.add_0_r. reflexivity. }
  assert (Hwarm1 : warm st1) by exact Hwarm.
  change (getVSyncPredictionModelLocked st1) with (getVSyncPredictionModelLocked st).
  fold s.
  assert (Hh : 1 <= Z.quot s 2 < s).
  { pose proof (Z.quot_rem' s 2). pose proof (Z.rem_bound_pos s 2 ltac:(lia) ltac:(lia)).
    lia. }
  assert (Hhalf : Int64.quot s 2 = Z.quot s 2).
  { apply int64_quot_pos; [|lia]. unfold in_int64, int64_min, int64_max.
    change (2 ^ 63) with 9223372036854775808. nia. }
  assert (Harg : Int64.sub (Int64.add (vsyncTime last) (Int64.mul s phase)) (Int64.quot s 2)
                 = vsyncTime last + phase * s - Z.quot s 2).
  { rewrite Hhalf. int64_exact. unfold in_int64, int64_min, int64_max.
    change (2 ^ 63) with 9223372036854775808. lia. }
  rewrite Harg.
  assert (Hord : Z.quot (vsyncTime last + phase * s - Z.quot s 2 - zeroPoint st + s) s
                 = q0 + phase).
  { rewrite <- Hvsync.
    replace (zeroPoint st + q0 * s + phase * s - Z.quot s 2 - zeroPoint st + s)
      with ((s - Z.quot s 2) + (q0 + phase) * s) by lia.
    rewrite Z.quot_div_nonneg by nia.
    rewrite Z.div_add by lia. rewrite Z.div_small by lia. lia. }
  destruct (warm_prediction st1 (vsyncTime last + phase * s - Z.quot s 2) Hwarm1)
    as [Heq1 _].
  { change (zeroPoint st1) with (zeroPoint st).
    change (getVSyncPredictionModelLocked st1) with (getVSyncPredictionModelLocked st).
    fold s. unfold in_int64, int64_min, int64_max.
    change (2 ^ 63) with 9223372036854775808. lia. }
  { change (zeroPoint st1) with (zeroPoint st).
    change (getVSyncPredictionModelLocked st1) with (getVSyncPredictionModelLocked st).
    fold s. rewrite Hord. unfold vsyncAt.
    change (zeroPoint st1) with (zeroPoint st).
    change (getVSyncPredictionModelLocked st1) with (getVSyncPredictionModelLocked st).
    fold s. unfold in_int64, int64_min, int64_max.
    change (2 ^ 63) with 9223372036854775808. nia. }
  cbn zeta in Heq1.
  change (zeroPoint st1) with (zeroPoint st) in Heq1.
  change (getVSyncPredictionModelLocked st1) with (getVSyncPredictionModelLocked st) in Heq1.
  fold s in Heq1. rewrite Hord in Heq1.
  rewrite Heq1. do 2 f_equal. unfold vsyncAt.
  change (zeroPoint st1) with (zeroPoint st).
  change (getVSyncPredictionModelLocked st1) with (getVSyncPredictionModelLocked st).
  fold s. lia.
Qed.

End RenderRate.

(** ** The 64-bit range of the validator *)

Section ValidateRange.

Context {Fps : Type}.
Implicit Types (st : VSyncPredictor Fps) (timestamp : nsecs_t).

Lemma aValidTimestamp_In st : has_sample st -> In (aValidTimestamp st) (mTimestamps st).
Proof.
  intros [_ Hidx]. unfold aValidTimestamp.
  destruct (mTimestamps st !! Z.to_nat (mLastTimestampIndex st)) as [a|] eqn:Hlookup.
  - cbn. apply list_elem_of_In. eapply list_elem_of_lookup_2. exact Hlookup.
  - apply lookup_ge_None in Hlookup. lia.
Qed.

(** X16.  [validate] within the 64-bit range.  With a sample written, a
    positive ideal period of at most 2^56 ns and every buffered timestamp
    within 2^56 ns (2.28 years) of the incoming one, no intermediate value of
    lines 80-90 leaves the [int64_t] range: the differences, the remainder
    and the distance times 100, and the two percentages.  On such inputs the
    arithmetic of [validate] is the arithmetic of the code. *)
Theorem validate_stays_in_int64_range st timestamp :
  has_sample st ->
  0 < mIdealPeriod st <= 2 ^ 56 ->
  Forall (fun a => Z.abs (timestamp - a) <= 2 ^ 56) (mTimestamps st) ->
  in_int64 (timestamp - aValidTimestamp st) /\
  in_int64 (Z.rem (timestamp - aValidTimestamp st) (mIdealPeriod st) * kMaxPercent) /\
  in_int64 (residualPercent st timestamp) /\
  Forall (fun a => in_int64 (timestamp - a)) (mTimestamps st) /\
  in_int64 (nearestTimestamp st timestamp - timestamp) /\
  in_int64 (Z.abs (nearestTimestamp st timestamp - timestamp) * kMaxPercent) /\
  in_int64 (distancePercent st timestamp).
Proof.
  intros Hs Hp Hnear.
  rewrite List.Forall_forall in Hnear.
  pose proof (Hnear _ (aValidTimestamp_In st Hs)) as Hlast.
  destruct (nearestTimestamp_closest st timestamp (proj1 Hs)) as [Hin _].
  pose proof (Hnear _ Hin) as Hclosest.
  pose proof (Z.rem_bound_abs (timestamp - aValidTimestamp st) (mIdealPeriod st)
                ltac:(lia)) as Hrem.
  pose proof (rem_percent_bound (timestamp - aValidTimestamp st) (mIdealPeriod st)) as Hpct.
  fold (residualPercent st timestamp) in Hpct.
  assert (Hdist : 0 <= distancePercent st timestamp
                  <= Z.abs (nearestTimestamp st timestamp - timestamp) * kMaxPercent).
  { unfold distancePercent. split.
    - apply Z.quot_pos; unfold kMaxPercent; lia.
    - apply Z.quot_le_upper_bound; [lia|]. unfold kMaxPercent. nia. }
  unfold in_int64, int64_min, int64_max, kMaxPercent in *.
  change (2 ^ 56) with 72057594037927936 in *.
  change (2 ^ 63) with 9223372036854775808.
  split; [lia|]. split; [lia|]. split; [lia|]. split.
  - apply List.Forall_forall. intros a Ha. specialize (Hnear a Ha). cbn beta in Hnear. lia.
  - split; [lia|]. split; lia.
Qed.

End ValidateRange.

(** ** The further properties on the sample configurations *)

Lemma example_converged_ring : ring_ok example_converged.
Proof. repeat split; intros; by_evaluation. Qed.

Lemma example_full_ring : ring_ok example_full.
Proof. repeat split; intros; by_evaluation. Qed.


Lemma buffered_timestamp_is_rejected_witness :
  has_sample example_converged /\
  0 < mIdealPeriod example_converged /\
  0 < kOutlierTolerancePercent example_converged /\
  In 100 (mTimestamps example_converged) /\
  validate example_converged 100 = false /\
  fst (addVsyncTimestamp example_converged 100) = false.
Proof.
  assert (Hs : has_sample example_converged) by (split; by_evaluation).
  assert (Hp : 0 < mIdealPeriod example_converged) by by_evaluation.
  assert (Htol : 0 < kOutlierTolerancePercent example_converged) by by_evaluation.
  assert (Hin : In 100 (mTimestamps example_converged))
    by (vm_compute; right; left; reflexivity).
  split; [exact Hs|]. split; [exact Hp|]. split; [exact Htol|]. split; [exact Hin|].
  exact (buffered_timestamp_is_rejected example_converged 100 Hs Hp Htol Hin).
Defined.


(** Appending to a ring with room, and overwriting the oldest slot of a full
    one. *)
Lemma insertTimestamp_appends_or_overwrites_witness :
  (ring_ok example_converged /\
   (length (mTimestamps example_converged) < kHistorySize example_converged)%nat /\
   mTimestamps (insertTimestamp example_converged 300)
     = mTimestamps example_converged ++ [300] /\
   aValidTimestamp (insertTimestamp example_converged 300) = 300) /\
  (ring_ok example_full /\
   length (mTimestamps example_full) = kHistorySize example_full /\
   mTimestamps (insertTimestamp example_full 300)
     = <[Z.to_nat ((mLastTimestampIndex example_full + 1)
                     mod Z.of_nat (kHistorySize example_full)) := 300]>
         (mTimestamps example_full) /\
   length (mTimestamps (insertTimestamp example_full 300)) = kHistorySize example_full /\
   aValidTimestamp (insertTimestamp example_full 300) = 300 /\
   ring_ok (insertTimestamp example_full 300)).
Proof.
  assert (Hring1 : ring_ok example_converged) by exact example_converged_ring.
  assert (Hroom : (length (mTimestamps example_converged)
                     < kHistorySize example_converged)%nat) by by_evaluation.
  assert (Hring2 : ring_ok example_full) by exact example_full_ring.
  assert (Hfull : length (mTimestamps example_full) = kHistorySize example_full)
    by by_evaluation.
  split.
  - split; [exact Hring1|]. split; [exact Hroom|].
    destruct (insertTimestamp_appends_or_overwrites example_converged 300 Hring1)
      as (Happend & _ & _ & Hlast & _).
    split; [exact (Happend Hroom) | exact Hlast].
  - split; [exact Hring2|]. split; [exact Hfull|].
    destruct (insertTimestamp_appends_or_overwrites example_full 300 Hring2)
      as (_ & Hover & _ & Hlast & Hring).
    destruct (Hover Hfull) as [Hts Hlen].
    split; [exact Hts|]. split; [exact Hlen|]. split; [exact Hlast | exact Hring].
Defined.

(** After [example_calls] on a history of 10. *)
Lemma buffer_stays_within_history_witness :
  (0 < 10)%nat /\
  0 <= 10 /\
  exists st,
    run RateMap.oldest_key example_divisor example_round_ratio example_calls
      (construct 100 10 2 10) = Some st /\
    (length (mTimestamps st) <= 10)%nat /\
    kHistorySize st = 10%nat /\
    kMinimumSamplesForPrediction st = 2%nat /\
    kOutlierTolerancePercent st = Z.min 10 kMaxPercent.
Proof.
  assert (Hcap : (0 < 10)%nat) by lia.
  assert (Htol : 0 <= 10) by lia.
  split; [exact Hcap|]. split; [exact Htol|].
  destruct (run RateMap.oldest_key example_divisor example_round_ratio example_calls
              (construct 100 10 2 10)) as [st|] eqn:Hrun; [|revert Hrun; vm_compute; discriminate].
  exists st. split; [reflexivity|].
  destruct (buffer_stays_within_history RateMap.oldest_key example_divisor
              example_round_ratio 100 10%nat 2%nat 10 example_calls st Hcap Htol Hrun)
    as (Hlen & _ & Hhist & Hmin & Htolerance & _).
  split; [exact Hlen|]. split; [exact Hhist|]. split; [exact Hmin | exact Htolerance].
Defined.

Lemma single_sample_fit_is_rejected_witness :
  mTimestamps example_one_suffices = [] /\
  (0 < kHistorySize example_one_suffices)%nat /\
  (kMinimumSamplesForPrediction example_one_suffices <= 1)%nat /\
  rate_map_invariant example_one_suffices /\
  fst (addVsyncTimestamp example_one_suffices 700) = false /\
  mTimestamps (snd (addVsyncTimestamp example_one_suffices 700)) = [] /\
  getVSyncPredictionModel (snd (addVsyncTimestamp example_one_suffices 700))
    = {| slope := mIdealPeriod example_one_suffices; intercept := 0 |} /\
  mKnownTimestamp (snd (addVsyncTimestamp example_one_suffices 700)) =
    Some (match mKnownTimestamp example_one_suffices with
          | Some known => Z.max known 700
          | None => 700
          end).
Proof.
  assert (Hempty : mTimestamps example_one_suffices = []) by by_evaluation.
  assert (Hcap : (0 < kHistorySize example_one_suffices)%nat) by by_evaluation.
  assert (Hmin : (kMinimumSamplesForPrediction example_one_suffices <= 1)%nat)
    by by_evaluation.
  assert (Hinv : rate_map_invariant example_one_suffices)
    by (split; [by_evaluation | vm_compute; eauto]).
  split; [exact Hempty|]. split; [exact Hcap|]. split; [exact Hmin|]. split; [exact Hinv|].
  exact (single_sample_fit_is_rejected example_one_suffices 700 Hempty Hcap Hmin Hinv).
Defined.

(** A sample taken at the period 50 leaves the model learnt at 100 alone. *)
Lemma addVsyncTimestamp_touches_active_period_only_witness :
  100 <> mIdealPeriod example_away /\
  RateMap.find 100 (mRateMap example_away) = Some {| slope := 105; intercept := 0 |} /\
  RateMap.find 100 (mRateMap (snd (addVsyncTimestamp example_away 1000)))
    = RateMap.find 100 (mRateMap example_away) /\
  mIdealPeriod (snd (addVsyncTimestamp example_away 1000)) = mIdealPeriod example_away /\
  constants (snd (addVsyncTimestamp example_away 1000)) = constants example_away.
Proof.
  assert (Hne : 100 <> mIdealPeriod example_away) by by_evaluation.
  split; [exact Hne|]. split; [by_evaluation|].
  destruct (addVsyncTimestamp_touches_active_period_only example_away 1000)
    as (Hother & Hideal & _ & _ & Hconst).
  split; [exact (Hother 100 Hne)|]. split; [exact Hideal | exact Hconst].
Defined.

(** Back from 50 to 100: the slope 105 learnt before is active again. *)
Lemma setPeriod_restores_cached_model_witness :
  RateMap.size (mRateMap example_away) <> kSizeLimit /\
  RateMap.find 100 (mRateMap example_away) = Some {| slope := 105; intercept := 0 |} /\
  mIdealPeriod (setPeriod RateMap.oldest_key example_away 100) = 100 /\
  getVSyncPredictionModel (setPeriod RateMap.oldest_key example_away 100)
    = {| slope := 105; intercept := 0 |} /\
  RateMap.find 70 (mRateMap example_away) = None /\
  getVSyncPredictionModel (setPeriod RateMap.oldest_key example_away 70)
    = {| slope := 70; intercept := 0 |}.
Proof.
  assert (Hsize : RateMap.size (mRateMap example_away) <> kSizeLimit) by by_evaluation.
  assert (Hfind : RateMap.find 100 (mRateMap example_away)
                  = Some {| slope := 105; intercept := 0 |}) by by_evaluation.
  assert (Hnone : RateMap.find 70 (mRateMap example_away) = None) by by_evaluation.
  split; [exact Hsize|]. split; [exact Hfind|].
  destruct (setPeriod_restores_cached_model RateMap.oldest_key example_away 100
              (or_introl Hsize)) as (Hideal & Hcached & _).
  split; [exact Hideal|]. split; [exact (Hcached _ Hfind)|]. split; [exact Hnone|].
  destruct (setPeriod_restores_cached_model RateMap.oldest_key example_away 70
              (or_introl Hsize)) as (_ & _ & Hfresh).
  exact (Hfresh Hnone).
Defined.

Lemma resetModel_forgets_active_fit_only_witness :
  getVSyncPredictionModel example_drifting = {| slope := 105; intercept := 0 |} /\
  mTimestamps example_drifting <> [] /\
  getVSyncPredictionModel (resetModel example_drifting)
    = {| slope := mIdealPeriod example_drifting; intercept := 0 |} /\
  mTimestamps (resetModel example_drifting) = [] /\
  exists maxRb,
    is_maximum maxRb (mTimestamps example_drifting) /\
    mKnownTimestamp (resetModel example_drifting) =
      Some (match mKnownTimestamp example_drifting with
            | Some known => Z.max known maxRb
            | None => maxRb
            end).
Proof.
  assert (Hne : mTimestamps example_drifting <> []) by by_evaluation.
  split; [by_evaluation|]. split; [exact Hne|].
  destruct (resetModel_forgets_active_fit_only example_drifting)
    as (Hmodel & Hts & _ & _ & _ & Hknown).
  split; [exact Hmodel|]. split; [exact Hts | exact (Hknown Hne)].
Defined.

Lemma queries_leave_the_model_alone_witness :
  rate_map_invariant example_half_rate /\
  (exists res,
     isVSyncInPhase example_divisor example_round_ratio example_half_rate 250 tt
       = Some (res, example_half_rate)) /\
  isVSyncInPhase example_divisor example_round_ratio example_half_rate 0 tt
    = Some (true, example_half_rate) /\
  exists vsync last,
    nextAnticipatedVSyncTimeFrom example_divisor example_round_ratio example_half_rate 250
      = Some (vsync, set_lastVsyncSequence example_half_rate (Some last)) /\
    getVsyncSequenceLocked example_round_ratio example_half_rate 250 = Some last.
Proof.
  assert (Hinv : rate_map_invariant example_half_rate)
    by (split; [by_evaluation | vm_compute; eauto]).
  split; [exact Hinv|].
  destruct (queries_leave_the_model_alone example_divisor example_round_ratio
              example_half_rate 250 tt Hinv) as (Hphase & _ & Hnext).
  destruct (queries_leave_the_model_alone example_divisor example_round_ratio
              example_half_rate 0 tt Hinv) as (_ & Htrivial & _).
  split.
  - destruct (isVSyncInPhase example_divisor example_round_ratio example_half_rate 250 tt)
      as [[res st']|] eqn:Hcall; [|revert Hcall; vm_compute; discriminate].
    exists res. rewrite (Hphase res st' eq_refl). reflexivity.
  - split; [exact (Htrivial (or_intror eq_refl))|].
    destruct (nextAnticipatedVSyncTimeFrom example_divisor example_round_ratio
                example_half_rate 250) as [[vsync st']|] eqn:Hcall;
      [|revert Hcall; vm_compute; discriminate].
    destruct (Hnext vsync st' eq_refl) as (last & Hseq & ->).
    exists vsync, last. split; [reflexivity | exact Hseq].
Defined.


(** Five samples every 103 ns from 7 on, fitted against a current period of
    100 ns. *)
Lemma regression_recovers_exact_period_witness :
  0 < 103 /\
  0 < 100 /\
  (2 <= 5)%nat /\
  (Z.of_nat 5 - 1) * Z.abs (103 - 100) < Z.quot 100 2 /\
  kScalingFactor * kScalingFactor * 103 * Z.of_nat 5 ^ 3 <= int64_max /\
  0 < bottom (regression (grid 7 103 5) 100) /\
  fit_anticipatedPeriod (regression (grid 7 103 5) 100) = 103 /\
  fit_intercept (regression (grid 7 103 5) 100) = 0.
Proof.
  assert (H1 : 0 < 103) by lia.
  assert (H2 : 0 < 100) by lia.
  assert (H3 : (2 <= 5)%nat) by lia.
  assert (H4 : (Z.of_nat 5 - 1) * Z.abs (103 - 100) < Z.quot 100 2) by by_evaluation.
  assert (H5 : kScalingFactor * kScalingFactor * 103 * Z.of_nat 5 ^ 3 <= int64_max)
    by by_evaluation.
  split; [exact H1|]. split; [exact H2|]. split; [exact H3|]. split; [exact H4|].
  split; [exact H5|].
  exact (regression_recovers_exact_period 7 103 100 5 H1 H2 H3 H4 H5).
Defined.

(** Six samples every 100 ns from 1000 on, three needed to predict. *)
Lemma periodic_samples_converge_witness :
  0 < 100 /\
  1 <= 10 <= kMaxPercent /\
  (2 <= 3)%nat /\
  (0 < 10)%nat /\
  (6 <= 10)%nat /\
  kScalingFactor * kScalingFactor * 100 * Z.of_nat 6 ^ 3 <= int64_max /\
  in_int64 1234 /\
  in_int64 (1234 - 1000 + 100) /\
  1234 + 2 * 100 <= int64_max /\
  feed_results (construct (Fps := unit) 100 10 3 10) (grid 1000 100 6) = repeat true 6 /\
  mTimestamps (feed (construct (Fps := unit) 100 10 3 10) (grid 1000 100 6))
    = grid 1000 100 6 /\
  getVSyncPredictionModel (feed (construct (Fps := unit) 100 10 3 10) (grid 1000 100 6))
    = {| slope := 100; intercept := 0 |} /\
  nextAnticipatedVSyncTimeFromLocked
    (feed (construct (Fps := unit) 100 10 3 10) (grid 1000 100 6)) 1234
    = Some (1000 + Z.quot (1234 - 1000 + 100) 100 * 100).
Proof.
  assert (H1 : 0 < 100) by lia.
  assert (H2 : 1 <= 10 <= kMaxPercent) by by_evaluation.
  assert (H3 : (2 <= 3)%nat) by lia.
  assert (H4 : (0 < 10)%nat) by lia.
  assert (H5 : (6 <= 10)%nat) by lia.
  assert (H6 : kScalingFactor * kScalingFactor * 100 * Z.of_nat 6 ^ 3 <= int64_max)
    by by_evaluation.
  assert (H7 : (0 < 6)%nat) by lia.
  assert (H8 : in_int64 1234) by by_evaluation.
  assert (H9 : in_int64 (1234 - 1000 + 100)) by by_evaluation.
  assert (H10 : 1234 + 2 * 100 <= int64_max) by by_evaluation.
  split; [exact H1|]. split; [exact H2|]. split; [exact H3|]. split; [exact H4|].
  split; [exact H5|]. split; [exact H6|]. split; [exact H8|]. split; [exact H9|].
  split; [exact H10|].
  destruct (periodic_samples_converge (Fps := unit) 1000 100 10%nat 3%nat 10 6%nat
              H1 H2 H3 H4 H5 H6) as (Hres & Hts & Hmodel & _ & Hpredict).
  split; [exact Hres|]. split; [exact Hts|]. split; [exact Hmodel|].
  exact (Hpredict H7 1234 H8 H9 H10).
Defined.

(** After the switch to 50 ns the buffer is empty and 200 is known: the
    prediction after 230 is 250. *)
Lemma cold_prediction_is_next_period_after_witness :
  mTimestamps example_switched = [] /\
  0 < mIdealPeriod example_switched /\
  in_int64 (230 - default 230 (mKnownTimestamp example_switched)) /\
  in_int64 (default 230 (mKnownTimestamp example_switched)
            + (Z.quot (230 - default 230 (mKnownTimestamp example_switched))
                 (mIdealPeriod example_switched) + 1) * mIdealPeriod example_switched) /\
  nextAnticipatedVSyncTimeFromLocked example_switched 230
    = Some (default 230 (mKnownTimestamp example_switched)
            + (Z.quot (230 - default 230 (mKnownTimestamp example_switched))
                 (mIdealPeriod example_switched) + 1) * mIdealPeriod example_switched) /\
  230 < default 230 (mKnownTimestamp example_switched)
        + (Z.quot (230 - default 230 (mKnownTimestamp example_switched))
             (mIdealPeriod example_switched) + 1) * mIdealPeriod example_switched.
Proof.
  assert (Hempty : mTimestamps example_switched = []) by by_evaluation.
  assert (Hp : 0 < mIdealPeriod example_switched) by by_evaluation.
  assert (Hdiff : in_int64 (230 - default 230 (mKnownTimestamp example_switched)))
    by by_evaluation.
  assert (Hpred : in_int64
            (default 230 (mKnownTimestamp example_switched)
             + (Z.quot (230 - default 230 (mKnownTimestamp example_switched))
                  (mIdealPeriod example_switched) + 1) * mIdealPeriod example_switched))
    by by_evaluation.
  split; [exact Hempty|]. split; [exact Hp|]. split; [exact Hdiff|]. split; [exact Hpred|].
  destruct (cold_prediction_is_next_period_after example_switched 230
              Hempty Hp Hdiff Hpred) as (Hpredict & Hlater & _).
  split; [exact Hpredict | exact Hlater].
Defined.

(** The cold path on [example_switched], the warm path on
    [example_converged]. *)
Lemma prediction_is_exact_in_practical_range_witness :
  (Z.abs 230 <= 2 ^ 60 /\
   mTimestamps example_switched = [] /\
   0 < mIdealPeriod example_switched <= 2 ^ 60 /\
   Z.abs (default 230 (mKnownTimestamp example_switched)) <= 2 ^ 60 /\
   nextAnticipatedVSyncTimeFromLocked example_switched 230
     = Some (default 230 (mKnownTimestamp example_switched)
             + (Z.quot (230 - default 230 (mKnownTimestamp example_switched))
                  (mIdealPeriod example_switched) + 1) * mIdealPeriod example_switched)) /\
  (Z.abs 250 <= 2 ^ 60 /\
   warm example_converged /\
   slope (getVSyncPredictionModelLocked example_converged) <= 2 ^ 60 /\
   Z.abs (min_element (mTimestamps example_converged)) <= 2 ^ 60 /\
   Z.abs (intercept (getVSyncPredictionModelLocked example_converged)) <= 2 ^ 60 /\
   nextAnticipatedVSyncTimeFromLocked example_converged 250
     = Some (vsyncAt example_converged
               (Z.quot (250 - zeroPoint example_converged
                        + slope (getVSyncPredictionModelLocked example_converged))
                  (slope (getVSyncPredictionModelLocked example_converged))))).
Proof.
  assert (Htp : Z.abs 230 <= 2 ^ 60) by by_evaluation.
  assert (Hempty : mTimestamps example_switched = []) by by_evaluation.
  assert (Hp : 0 < mIdealPeriod example_switched <= 2 ^ 60) by by_evaluation.
  assert (Hknown : Z.abs (default 230 (mKnownTimestamp example_switched)) <= 2 ^ 60)
    by by_evaluation.
  assert (Htp' : Z.abs 250 <= 2 ^ 60) by by_evaluation.
  assert (Hslope : slope (getVSyncPredictionModelLocked example_converged) <= 2 ^ 60)
    by by_evaluation.
  assert (Hold : Z.abs (min_element (mTimestamps example_converged)) <= 2 ^ 60)
    by by_evaluation.
  assert (Hint : Z.abs (intercept (getVSyncPredictionModelLocked example_converged))
                 <= 2 ^ 60) by by_evaluation.
  destruct (prediction_is_exact_in_practical_range example_switched 230 Htp) as [Hcold _].
  destruct (prediction_is_exact_in_practical_range example_converged 250 Htp') as [_ Hwarm].
  split.
  - split; [exact Htp|]. split; [exact Hempty|]. split; [exact Hp|]. split; [exact Hknown|].
    exact (proj1 (Hcold Hempty Hp Hknown)).
  - split; [exact Htp'|]. split; [exact example_converged_warm|]. split; [exact Hslope|].
    split; [exact Hold|]. split; [exact Hint|].
    exact (proj1 (Hwarm example_converged_warm Hslope Hold Hint)).
Defined.

(** At half rate with the sequence (300, 0) cached, the plain prediction after
    350 is 400 with sequence number 1: one period is skipped. *)
Lemma render_rate_skip_lands_on_aligned_vsync_witness :
  warm example_half_rate_cached /\
  2 <= slope (getVSyncPredictionModelLocked example_half_rate_cached) /\
  zeroPoint example_half_rate_cached
    - slope (getVSyncPredictionModelLocked example_half_rate_cached) <= 350 /\
  mRenderRate example_half_rate_cached = Some tt /\
  1 < example_divisor (mIdealPeriod example_half_rate_cached) tt <= 2 ^ 30 /\
  Z.abs 350 <= 2 ^ 60 /\
  Z.abs (zeroPoint example_half_rate_cached) <= 2 ^ 60 /\
  (2 * example_divisor (mIdealPeriod example_half_rate_cached) tt + 2)
    * slope (getVSyncPredictionModelLocked example_half_rate_cached) <= 2 ^ 60 /\
  getVsyncSequenceLocked example_round_ratio example_half_rate_cached 350
    = Some {| vsyncTime := 400; seq := 1 |} /\
  exists phase,
    nextAnticipatedVSyncTimeFrom example_divisor example_round_ratio
      example_half_rate_cached 350
      = Some (400 + phase * slope (getVSyncPredictionModelLocked example_half_rate_cached),
              set_lastVsyncSequence example_half_rate_cached
                (Some {| vsyncTime := 400; seq := 1 |})) /\
    0 <= phase < 2 * example_divisor (mIdealPeriod example_half_rate_cached) tt /\
    Z.rem (1 + phase) (example_divisor (mIdealPeriod example_half_rate_cached) tt) = 0 /\
    (phase = 0 <-> Z.rem 1 (example_divisor (mIdealPeriod example_half_rate_cached) tt) = 0).
Proof.
  assert (Hwarm : warm example_half_rate_cached) by (split; by_evaluation).
  assert (Hslope : 2 <= slope (getVSyncPredictionModelLocked example_half_rate_cached))
    by by_evaluation.
  assert (Hfrom : zeroPoint example_half_rate_cached
                  - slope (getVSyncPredictionModelLocked example_half_rate_cached) <= 350)
    by by_evaluation.
  assert (Hrate : mRenderRate example_half_rate_cached = Some tt) by by_evaluation.
  assert (Hdiv : 1 < example_divisor (mIdealPeriod example_half_rate_cached) tt <= 2 ^ 30)
    by by_evaluation.
  assert (Htp : Z.abs 350 <= 2 ^ 60) by by_evaluation.
  assert (Hzero : Z.abs (zeroPoint example_half_rate_cached) <= 2 ^ 60) by by_evaluation.
  assert (Hskip : (2 * example_divisor (mIdealPeriod example_half_rate_cached) tt + 2)
                  * slope (getVSyncPredictionModelLocked example_half_rate_cached) <= 2 ^ 60)
    by by_evaluation.
  assert (Hseq : getVsyncSequenceLocked example_round_ratio example_half_rate_cached 350
                 = Some {| vsyncTime := 400; seq := 1 |}) by by_evaluation.
  split; [exact Hwarm|]. split; [exact Hslope|]. split; [exact Hfrom|]. split; [exact Hrate|].
  split; [exact Hdiv|]. split; [exact Htp|]. split; [exact Hzero|]. split; [exact Hskip|].
  split; [exact Hseq|].
  exact (render_rate_skip_lands_on_aligned_vsync example_divisor example_round_ratio
           example_half_rate_cached 350 tt {| vsyncTime := 400; seq := 1 |}
           Hwarm Hslope Hfrom Hrate Hdiv Htp Hzero Hskip Hseq).
Defined.

(** The sample 300 arriving on [example_converged]. *)
Lemma validate_stays_in_int64_range_witness :
  has_sample example_converged /\
  0 < mIdealPeriod example_converged <= 2 ^ 56 /\
  Forall (fun a => Z.abs (300 - a) <= 2 ^ 56) (mTimestamps example_converged) /\
  in_int64 (300 - aValidTimestamp example_converged) /\
  in_int64 (Z.rem (300 - aValidTimestamp example_converged) (mIdealPeriod example_converged)
            * kMaxPercent) /\
  in_int64 (Z.abs (nearestTimestamp example_converged 300 - 300) * kMaxPercent).
Proof.
  assert (Hp : 0 < mIdealPeriod example_converged <= 2 ^ 56) by by_evaluation.
  assert (Hnear : Forall (fun a => Z.abs (300 - a) <= 2 ^ 56)
                    (mTimestamps example_converged)).
  { apply List.Forall_forall. intros a Ha. vm_compute in Ha.
    destruct Ha as [<-|[<-|[<-|[]]]]; by_evaluation. }
  split; [exact example_converged_has_sample|]. split; [exact Hp|]. split; [exact Hnear|].
  destruct (validate_stays_in_int64_range example_converged 300
              example_converged_has_sample Hp Hnear) as (Hdiff & Hrem & _ & _ & _ & Hdist & _).
  split; [exact Hdiff|]. split; [exact Hrem | exact Hdist].
Defined.
